(** * nitf-rename: the help-text updater [_misc/readme_update_helptext.py]

    A shallow embedding of the script that captures [nitf-rename --help],
    rewrites it for reStructuredText and splices it between the two marker
    comments of [readme.rst], with the properties of its three stages.

    A Python [str] is a sequence of Unicode code points: it is modelled as a
    list of code points, each a number of type [N].  Indices are [Z], because
    [str.find] answers [-1] and slices accept negative bounds. *)

From Stdlib Require Import String Ascii.
From Stdlib Require Import List Bool Arith Lia NArith ZArith.
Import ListNotations.

Open Scope list_scope.

(** ** Text *)

Definition char := N.
Definition text := list char.

(** A string literal of the source, as text. *)
Definition py (s : string) : text := map N_of_ascii (list_ascii_of_string s).

Definition nl : char := 10%N.      (* '\n' *)
Definition tab : char := 9%N.      (* '\t' *)
Definition space : char := 32%N.   (* ' '  *)

Definition len (s : text) : Z := Z.of_nat (length s).

(** ** The builtins the script calls *)

Module Str.

(** [s.startswith(sub)], the comparison at one position that [find] and
    [replace] repeat. *)
Fixpoint startswith (sub s : text) : bool :=
  match sub, s with
  | [], _ => true
  | _ :: _, [] => false
  | a :: sub', b :: s' => N.eqb a b && startswith sub' s'
  end.

(** Offset of the leftmost occurrence of [sub] in [s]. *)
Fixpoint index_of (sub s : text) : option nat :=
  if startswith sub s then Some 0
  else match s with
       | [] => None
       | _ :: s' => option_map S (index_of sub s')
       end.

(** [s.find(sub, start)]: a negative [start] counts from the end and is
    clipped at 0; past the end nothing is found; the answer is an index into
    [s], or [-1]. *)
Definition find (s sub : text) (start : Z) : Z :=
  let start := if (start <? 0)%Z then Z.max 0 (start + len s) else start in
  if (len s <? start)%Z then (-1)%Z
  else match index_of sub (skipn (Z.to_nat start) s) with
       | Some k => (start + Z.of_nat k)%Z
       | None => (-1)%Z
       end.

(** [s[:i]] and [s[i:]] with Python's treatment of bounds that are negative
    or past the end. *)
Definition clip (s : text) (i : Z) : nat :=
  Z.to_nat (if (i <? 0)%Z then Z.max 0 (i + len s) else Z.min i (len s)).

Definition slice_to (s : text) (i : Z) : text := firstn (clip s i) s.
Definition slice_from (s : text) (i : Z) : text := skipn (clip s i) s.

(** [s.replace(old, new)]: the occurrences of [old] are taken from the left,
    each search resuming after the previous occurrence; [skip] counts the
    characters of the current occurrence still to be passed over.  An empty
    [old] puts [new] before every character and at the end. *)
Fixpoint replace_go (old new : text) (skip : nat) (s : text) : text :=
  match s with
  | [] => []
  | c :: s' =>
      match skip with
      | S k => replace_go old new k s'
      | O => if startswith old s
             then new ++ replace_go old new (length old - 1) s'
             else c :: replace_go old new 0 s'
      end
  end.

Definition replace (s old new : text) : text :=
  match old with
  | [] => new ++ flat_map (fun c => c :: new) s
  | _ :: _ => replace_go old new 0 s
  end.

(** [c.isspace()]: the code points Python's [str] methods treat as
    whitespace. *)
Definition isspace (c : char) : bool :=
  ((9 <=? c) && (c <=? 13) || (28 <=? c) && (c <=? 32)
   || (c =? 133) || (c =? 160) || (c =? 5760)
   || (8192 <=? c) && (c <=? 8202)
   || (c =? 8232) || (c =? 8233) || (c =? 8239) || (c =? 8287)
   || (c =? 12288))%N.

(** [s.rstrip()]: [s] without its trailing run of whitespace. *)
Fixpoint rstrip (s : text) : text :=
  match s with
  | [] => []
  | c :: s' =>
      match rstrip s' with
      | [] => if isspace c then [] else [c]
      | t => c :: t
      end
  end.

(** [repr(s)] for a string with no quote, backslash or unprintable
    character, which is all the script formats. *)
Definition repr (s : text) : text := py "'" ++ s ++ py "'".

End Str.

(** ** The regular expression of [main]: [re.sub(r'[ \t]+(\n|\Z)', r'\1', s)] *)

Module Re.

Definition is_blank (c : char) : bool := N.eqb c space || N.eqb c tab.

(** A match of [[ \t]+(\n|\Z)] anchored at the head of [s], as the
    backtracking matcher finds it: the repetition first takes one more
    character, and only when the rest cannot match does it stop and try the
    group.  The answer is the length of the match and the text of group 1. *)
Fixpoint match_here (s : text) : option (nat * text) :=
  match s with
  | [] => None
  | c :: s' =>
      if is_blank c then
        match match_here s' with
        | Some (n, g) => Some (S n, g)
        | None =>
            match s' with
            | [] => Some (1, [])                        (* \Z *)
            | d :: _ => if N.eqb d nl then Some (2, [nl]) (* \n *)
                        else None
            end
        end
      else None
  end.

(** The substitution: at each position not inside a previous match, a match
    is replaced by its group 1, otherwise the character is copied. *)
Fixpoint sub_go (skip : nat) (s : text) : text :=
  match s with
  | [] => []
  | c :: s' =>
      match skip with
      | S k => sub_go k s'
      | O => match match_here s with
             | Some (n, g) => g ++ sub_go (n - 1) s'
             | None => c :: sub_go 0 s'
             end
      end
  end.

Definition sub (s : text) : text := sub_go 0 s.

End Re.

(** ** The script *)

Definition COMMAND_NAME : text := py "nitf-rename".

(** The literals of [patch_help_test]: what each [replace] looks for and
    what it puts there. *)
Definition usage_old : text := py "usage: " ++ COMMAND_NAME.
Definition usage_new : text :=
  py "usage::" ++ [nl] ++
  [nl] ++
  py "       " ++ COMMAND_NAME.
Definition choices_old : text := py "{none,auto,git,hg,svn}".
Definition choices_new : text := py "<none,auto,git,hg,svn>".

Definition patch_help_test (help_output : text) : text :=
  let help_output := Str.replace help_output usage_old usage_new in
  let help_output := Str.replace help_output choices_old choices_new in
  help_output.

(** The values [help_output] takes in [main] before the splice, as
    functions of the decoded standard output of the command: after
    [rstrip] and the two terminators, after [re.sub], and after
    [patch_help_test] and the heading. *)
Definition help_output_captured (stdout : text) : text :=
  Str.rstrip stdout ++
  [nl; nl].

Definition help_output_stripped (stdout : text) : text :=
  Re.sub (help_output_captured stdout).

Definition help_output_final (stdout : text) : text :=
  ([nl] ++ py "Output of ``" ++ COMMAND_NAME ++ py " --help``" ++ [nl; nl]) ++
  patch_help_test (help_output_stripped stdout).

Definition help_begin_text : text := py ".. BEGIN HELP TEXT".
Definition help_end_text : text := py ".. END HELP TEXT".

(** The rest of [main], from the two [find] calls to the value written, as a
    function of [data] (the text read from the file) and [help_output]. *)
Inductive spliced : Type :=
  | NotFound (marker : text)       (* an error is printed, main returns *)
  | Update (data_update : text).   (* the text main writes back *)

Definition help_begin_index (data : text) : Z :=
  Str.find data help_begin_text 0.

Definition help_end_index (data : text) : Z :=
  Str.find data help_end_text (help_begin_index data).

(** [help_begin_index] after [+= len(help_begin_text) + 1]. *)
Definition insertion_index (data : text) : Z :=
  (help_begin_index data + (len help_begin_text + 1))%Z.

Definition splice (data help_output : text) : spliced :=
  if (help_begin_index data =? -1)%Z then NotFound help_begin_text
  else if (help_end_index data =? -1)%Z then NotFound help_end_text
  else
    Update (Str.slice_to data (insertion_index data) ++ help_output ++
            Str.slice_from data (help_end_index data)).

(** What [main] touches: the file [readme.rst] (absent, or its text) and the
    lines printed so far. *)
Record world : Type := World {
  readme_rst : option text;
  printed : list text
}.

(** What [subprocess.run] did: it raised because the program could not be
    started, or the process ran to its end with a return code and an output,
    [None] where the bytes are not valid UTF-8. *)
Inductive process : Type :=
  | NotStarted
  | Completed (returncode : Z) (stdout : option text).

Inductive exn : Type := OSError | UnicodeDecodeError | FileNotFoundError.

Inductive status : Type := Returned | Raised (e : exn).

Definition print (line : text) (w : world) : world :=
  World (readme_rst w) (printed w ++ [line]).

Definition write (data : text) (w : world) : world :=
  World (Some data) (printed w).

Definition main (p : process) (w : world) : status * world :=
  match p with
  | NotStarted => (Raised OSError, w)
  | Completed _ None => (Raised UnicodeDecodeError, w)
  | Completed _ (Some stdout) =>
      let help_output := help_output_final stdout in
      match readme_rst w with
      | None => (Raised FileNotFoundError, w)
      | Some data =>
          match splice data help_output with
          | NotFound marker =>
              (Returned,
               print (py "Error: " ++ Str.repr marker ++ py " not found") w)
          | Update data_update => (Returned, write data_update w)
          end
      end
  end.

(** ** Notions of the specification *)

(** [sub] occurs in [s] at offset [i]: [s[i : i + len(sub)] == sub]. *)
Definition occurs_at (sub s : text) (i : nat) : Prop :=
  i + length sub <= length s /\ firstn (length sub) (skipn i s) = sub.

(** [i] is the offset of the first occurrence of [sub] in [s] that is at or
    after offset [start]. *)
Definition first_occurrence_from (sub s : text) (start i : nat) : Prop :=
  start <= i /\ occurs_at sub s i /\
  forall j, start <= j < i -> ~ occurs_at sub s j.

Definition first_occurrence (sub s : text) (i : nat) : Prop :=
  first_occurrence_from sub s 0 i.

(** The heading put before the help text. *)
Definition heading_line : text :=
  py "Output of ``" ++ COMMAND_NAME ++ py " --help``".

(** [sub] is a substring of [s]. *)
Fixpoint contains (sub s : text) : bool :=
  Str.startswith sub s ||
  match s with
  | [] => false
  | _ :: s' => contains sub s'
  end.

(** The lines of a text, as [s.split('\n')] gives them, and back. *)
Fixpoint split_lines (s : text) : list text :=
  match s with
  | [] => [[]]
  | c :: s' =>
      if N.eqb c nl then [] :: split_lines s'
      else match split_lines s' with
           | l :: ls => (c :: l) :: ls
           | [] => [[c]]
           end
  end.

Fixpoint join_lines (ls : list text) : text :=
  match ls with
  | [] => []
  | [l] => l
  | l :: ls' => l ++ nl :: join_lines ls'
  end.

(** The last character of a text, if any, satisfies [p]. *)
Fixpoint ends_with (p : char -> bool) (s : text) : bool :=
  match s with
  | [] => false
  | c :: s' =>
      match s' with
      | [] => p c
      | _ :: _ => ends_with p s'
      end
  end.

(** A line without its trailing spaces and tabs. *)
Fixpoint rstrip_blank (l : text) : text :=
  match l with
  | [] => []
  | c :: l' =>
      match rstrip_blank l' with
      | [] => if Re.is_blank c then [] else [c]
      | t => c :: t
      end
  end.

(** Nothing but spaces and tabs stands between the head of [s] and the end
    of its first line. *)
Fixpoint blank_to_eol (s : text) : bool :=
  match s with
  | [] => true
  | c :: s' => N.eqb c nl || Re.is_blank c && blank_to_eol s'
  end.

(** The text with every line stripped of its trailing spaces and tabs. *)
Definition strip_lines (s : text) : text :=
  join_lines (map rstrip_blank (split_lines s)).

(** Offset just past the line terminator of the line that position [i] of
    [s] lies on, or the length of [s] when that line is the last. *)
Fixpoint line_end (s : text) (i : nat) : nat :=
  match s with
  | [] => 0
  | c :: s' =>
      match i with
      | S j => S (line_end s' j)
      | O => if N.eqb c nl then 1 else S (line_end s' 0)
      end
  end.

(** ** Sample files and outputs *)

(** A file with both markers, each on a line of its own. *)
Definition readme_plain : text :=
  py "Usage" ++ [nl] ++
  py ".. BEGIN HELP TEXT" ++ [nl] ++
  py "stale help" ++ [nl] ++
  py ".. END HELP TEXT" ++ [nl] ++
  py "License" ++ [nl].


(** The same with another remark on the marker line. *)
Definition readme_remark : text :=
  py ".. BEGIN HELP TEXT - do not edit" ++ [nl] ++
  py ".. END HELP TEXT" ++ [nl].

(** A file without the begin marker, and one whose only end marker comes
    before the begin marker. *)
Definition readme_no_begin : text :=
  py "Usage" ++ [nl] ++ py ".. END HELP TEXT" ++ [nl].

Definition readme_no_end : text :=
  py ".. END HELP TEXT" ++ [nl] ++
  py ".. BEGIN HELP TEXT" ++ [nl] ++
  py "stale help" ++ [nl].

(** An output of [nitf-rename --help], cut short. *)
Definition help_sample : text :=
  py "usage: nitf-rename [-h] [--vcs {none,auto,git,hg,svn}]  " ++ [nl] ++
  [nl] ++
  py "Rename files." ++ [nl; nl; nl].

(** Two texts are compatible when one is a prefix of the other, which is
    what two prefixes of one text always are. *)
Definition compatible (a b : text) : bool :=
  Str.startswith a b || Str.startswith b a.

(** [apart x y]: no occurrence of [y] can begin inside an occurrence of [x],
    because no non-empty suffix of [x] is compatible with [y]. *)
Definition apart (x y : text) : bool :=
  forallb (fun k => negb (compatible (skipn k x) y)) (seq 0 (length x)).

(** * Properties *)

(** ** The builtins on small inputs *)

Example find_from_start :
  Str.find (py "abcabc") (py "bc") 2 = 4%Z /\
  Str.find (py "abcabc") (py "bc") (-1) = (-1)%Z /\
  Str.find (py "abc") (py "x") 0 = (-1)%Z.
Proof. repeat split; reflexivity. Qed.

Example replace_leftmost_first :
  Str.replace (py "aaa") (py "aa") (py "b") = py "ba" /\
  Str.replace (py "ab") [] (py "-") = py "-a-b-".
Proof. split; reflexivity. Qed.

Example rstrip_trailing_only :
  Str.rstrip (py " a b " ++ [nl; tab; nl]) = py " a b".
Proof. reflexivity. Qed.

Example sub_strips_line_ends :
  Re.sub (py "a  " ++ [nl] ++ py " b " ++ [tab] ++ py "c" ++ [tab; nl] ++ py "d ") =
  py "a" ++ [nl] ++ py " b " ++ [tab] ++ py "c" ++ [nl] ++ py "d".
Proof. reflexivity. Qed.

Example slices_clip :
  Str.slice_to (py "abc") 5 = py "abc" /\
  Str.slice_to (py "abc") (-1) = py "ab" /\
  Str.slice_from (py "abc") (-5) = py "abc".
Proof. repeat split; reflexivity. Qed.

Example main_on_sample :
  main (Completed 0 (Some help_sample)) (World (Some readme_plain) []) =
  (Returned,
   World
     (Some
        (py "Usage" ++ [nl] ++
         py ".. BEGIN HELP TEXT" ++ [nl] ++
         [nl] ++
         py "Output of ``nitf-rename --help``" ++ [nl] ++
         [nl] ++
         py "usage::" ++ [nl] ++
         [nl] ++
         py "       nitf-rename [-h] [--vcs <none,auto,git,hg,svn>]" ++ [nl] ++
         [nl] ++
         py "Rename files." ++ [nl] ++
         [nl] ++
         py ".. END HELP TEXT" ++ [nl] ++
         py "License" ++ [nl]))
     []).
Proof. vm_compute. reflexivity. Qed.

(** ** Prefixes and occurrences *)

Lemma startswith_iff sub s :
  Str.startswith sub s = true <-> firstn (length sub) s = sub.
Proof.
  revert s; induction sub as [|a sub IH]; intros [|b s]; simpl;
    try (split; congruence).
  rewrite andb_true_iff, N.eqb_eq, IH. split.
  - intros [-> ->]; reflexivity.
  - intros E; injection E as -> E; auto.
Qed.

Lemma startswith_app sub r : Str.startswith sub (sub ++ r) = true.
Proof.
  induction sub as [|a sub IH]; simpl; [reflexivity|].
  now rewrite N.eqb_refl.
Qed.

Lemma startswith_split sub s :
  Str.startswith sub s = true -> s = sub ++ skipn (length sub) s.
Proof.
  intros H. apply startswith_iff in H.
  rewrite <- H at 1. symmetry; apply firstn_skipn.
Qed.

Lemma startswith_app_l x s r :
  Str.startswith x s = true -> Str.startswith x (s ++ r) = true.
Proof.
  intros H. rewrite (startswith_split _ _ H), <- app_assoc.
  apply startswith_app.
Qed.

Lemma startswith_length sub s :
  Str.startswith sub s = true -> length sub <= length s.
Proof.
  intros H. rewrite (startswith_split _ _ H), length_app. lia.
Qed.

Lemma startswith_common a b s :
  Str.startswith a s = true -> Str.startswith b s = true ->
  compatible a b = true.
Proof.
  unfold compatible.
  revert b s; induction a as [|x a IH]; intros [|y b] [|z s]; simpl;
    try reflexivity; try discriminate.
  rewrite !andb_true_iff, !N.eqb_eq. intros [-> Ha] [-> Hb].
  rewrite N.eqb_refl; simpl. now apply IH with s.
Qed.

Lemma startswith_short sub a r :
  length sub <= length a ->
  Str.startswith sub (a ++ r) = Str.startswith sub a.
Proof.
  revert a; induction sub as [|x sub IH]; intros [|y a]; simpl; intros L;
    try reflexivity; try lia.
  rewrite IH by lia. reflexivity.
Qed.

Lemma apart_nil y : apart [] y = true.
Proof. reflexivity. Qed.

Lemma apart_cons c x y :
  apart (c :: x) y = negb (compatible (c :: x) y) && apart x y.
Proof.
  unfold apart. simpl length. rewrite <- cons_seq. simpl forallb.
  f_equal. rewrite <- seq_shift.
  induction (seq 0 (length x)) as [|k ks IH]; simpl; [reflexivity|].
  now rewrite IH.
Qed.

Lemma apart_head x y s :
  x <> [] -> apart x y = true ->
  Str.startswith x s = true -> Str.startswith y s = false.
Proof.
  destruct x as [|c x]; [congruence|]; intros _ A Hx.
  rewrite apart_cons, andb_true_iff, negb_true_iff in A.
  destruct (Str.startswith y s) eqn:Hy; [|reflexivity].
  rewrite (startswith_common _ _ _ Hx Hy) in A. now destruct A.
Qed.

Lemma contains_cons sub c s :
  contains sub (c :: s) = Str.startswith sub (c :: s) || contains sub s.
Proof. reflexivity. Qed.

Lemma contains_startswith sub s :
  Str.startswith sub s = true -> contains sub s = true.
Proof. intros H; destruct s; simpl in *; now rewrite H. Qed.

(** A text that begins with [p] has an occurrence of [x] exactly when the
    rest has, provided no [x] can begin inside [p]. *)
Lemma contains_app_apart p x r :
  apart p x = true -> contains x (p ++ r) = contains x r.
Proof.
  induction p as [|c p IH]; [reflexivity|]. intros A.
  pose proof A as A'. rewrite apart_cons, andb_true_iff in A'.
  destruct A' as [_ A'].
  change ((c :: p) ++ r) with (c :: p ++ r). rewrite contains_cons, IH by assumption.
  destruct (Str.startswith x (c :: p ++ r)) eqn:Hx; [|reflexivity].
  exfalso.
  assert (H : Str.startswith x ((c :: p) ++ r) = false).
  { apply apart_head with (c :: p); [discriminate|assumption|].
    apply startswith_app. }
  simpl in H; congruence.
Qed.

Lemma contains_app_r x p r : contains x r = true -> contains x (p ++ r) = true.
Proof.
  intros H; induction p as [|c p IH]; [assumption|].
  change ((c :: p) ++ r) with (c :: p ++ r).
  rewrite contains_cons, IH. apply orb_true_r.
Qed.

Lemma occurs_at_iff sub s i :
  occurs_at sub s i <->
  i <= length s /\ Str.startswith sub (skipn i s) = true.
Proof.
  unfold occurs_at. rewrite startswith_iff. split.
  - intros [L H]; split; [lia|assumption].
  - intros [L H]; split; [|assumption].
    apply startswith_iff, startswith_length in H.
    rewrite length_skipn in H. lia.
Qed.

Lemma contains_iff sub s :
  contains sub s = true <-> exists i, occurs_at sub s i.
Proof.
  induction s as [|c s IH].
  - simpl. rewrite orb_false_r. split.
    + intros H; exists 0. apply occurs_at_iff. split; [simpl; lia|assumption].
    + intros (i & H). apply occurs_at_iff in H as [Hi H].
      destruct i; [assumption|simpl in Hi; lia].
  - rewrite contains_cons, orb_true_iff, IH. split.
    + intros [H|(i & H)].
      * exists 0. apply occurs_at_iff. split; [simpl; lia|assumption].
      * exists (S i). apply occurs_at_iff in H as [Hi H].
        apply occurs_at_iff. split; [simpl; lia|assumption].
    + intros (i & H). apply occurs_at_iff in H as [Hi H].
      destruct i as [|i]; [left; assumption|].
      right; exists i. apply occurs_at_iff. split; [simpl in Hi; lia|assumption].
Qed.


Lemma apart_tail c x y : apart (c :: x) y = true -> apart x y = true.
Proof. rewrite apart_cons, andb_true_iff; tauto. Qed.


Lemma text_length_ind (P : text -> Prop) :
  (forall s, (forall t, length t < length s -> P t) -> P s) -> forall s, P s.
Proof.
  intros step s. remember (length s) as n eqn:E.
  revert s E; induction n as [n IH] using lt_wf_ind; intros s ->.
  apply step; intros t Ht. now apply (IH (length t)).
Qed.

(** ** [str.replace] with a non-empty pattern *)

Section Replace.

Variables (o : char) (ot new : text).
Local Abbreviation old := (o :: ot).

Lemma replace_go_skip s k :
  Str.replace_go old new k s = Str.replace_go old new 0 (skipn k s).
Proof.
  revert k; induction s as [|c s IH]; intros [|k]; try reflexivity.
  simpl skipn. rewrite <- IH. reflexivity.
Qed.

Lemma replace_nil : Str.replace [] old new = [].
Proof. reflexivity. Qed.

Lemma replace_hit s :
  Str.startswith old s = true ->
  Str.replace s old new = new ++ Str.replace (skipn (length old) s) old new.
Proof.
  destruct s as [|c s]; [discriminate|]. intros H.
  unfold Str.replace. cbn [Str.replace_go]. rewrite H.
  replace (length old - 1) with (length ot) by (simpl; lia).
  rewrite replace_go_skip. reflexivity.
Qed.

Lemma replace_miss c s :
  Str.startswith old (c :: s) = false ->
  Str.replace (c :: s) old new = c :: Str.replace s old new.
Proof.
  intros H. unfold Str.replace. cbn [Str.replace_go]. now rewrite H.
Qed.

(** A text with no occurrence of the pattern is returned as it is. *)
Lemma replace_absent s :
  contains old s = false -> Str.replace s old new = s.
Proof.
  induction s as [|c s IH]; [reflexivity|].
  rewrite contains_cons, orb_false_iff. intros [H1 H2].
  rewrite replace_miss, IH by assumption. reflexivity.
Qed.

(** A text with an occurrence of the pattern comes out with an occurrence
    of the replacement. *)
Lemma replace_present s :
  contains old s = true -> contains new (Str.replace s old new) = true.
Proof.
  induction s as [|c s IH]; [discriminate|].
  rewrite contains_cons. destruct (Str.startswith old (c :: s)) eqn:H.
  - intros _. rewrite replace_hit by assumption.
    apply contains_startswith, startswith_app.
  - simpl orb. intros Hc. rewrite replace_miss, contains_cons, IH by assumption.
    apply orb_true_r.
Qed.

(** A text [x] that neither the pattern nor the replacement can begin
    inside of is a prefix of the result exactly when it was one of the
    input. *)
Lemma startswith_replace x s :
  apart x old = true -> apart x new = true ->
  Str.startswith x (Str.replace s old new) = Str.startswith x s.
Proof.
  revert s; induction x as [|d x IH]; intros s Ao An; [reflexivity|].
  destruct s as [|c s]; [reflexivity|].
  destruct (Str.startswith old (c :: s)) eqn:H.
  - rewrite replace_hit by assumption.
    destruct (Str.startswith (d :: x) (new ++ _)) eqn:H1.
    + pose proof (apart_head (d :: x) new _ ltac:(discriminate) An H1) as H2.
      now rewrite startswith_app in H2.
    + destruct (Str.startswith (d :: x) (c :: s)) eqn:H2; [|reflexivity].
      pose proof (apart_head (d :: x) old _ ltac:(discriminate) Ao H2). congruence.
  - rewrite replace_miss by assumption. simpl. f_equal.
    apply IH; eapply apart_tail; eassumption.
Qed.

(** Replacement neither makes nor breaks an occurrence of a text that
    cannot overlap the pattern or the replacement. *)
Lemma contains_replace x s :
  apart x old = true -> apart x new = true ->
  apart old x = true -> apart new x = true ->
  contains x (Str.replace s old new) = contains x s.
Proof.
  intros Ao An Aox Anx. induction s as [s IH] using text_length_ind.
  destruct s as [|c s]; [reflexivity|].
  destruct (Str.startswith old (c :: s)) eqn:H.
  - rewrite replace_hit by assumption.
    rewrite (startswith_split _ _ H) at 2.
    rewrite !contains_app_apart by assumption.
    apply IH. rewrite length_skipn. simpl. lia.
  - rewrite (contains_cons x c s).
    rewrite <- (startswith_replace x (c :: s) Ao An).
    rewrite replace_miss by assumption. rewrite contains_cons.
    f_equal. apply IH. simpl; lia.
Qed.

(** When the pattern cannot overlap itself or the replacement, no
    occurrence of the pattern is left in the result. *)
Lemma replace_exhaustive s :
  apart ot old = true -> apart ot new = true -> apart new old = true ->
  contains old (Str.replace s old new) = false.
Proof.
  intros Ao An Ano. induction s as [s IH] using text_length_ind.
  destruct s as [|c s]; [reflexivity|].
  destruct (Str.startswith old (c :: s)) eqn:H.
  - rewrite replace_hit by assumption.
    rewrite contains_app_apart by assumption.
    apply IH. rewrite length_skipn. simpl. lia.
  - rewrite replace_miss by assumption. rewrite contains_cons.
    rewrite IH by (simpl; lia). rewrite orb_false_r.
    cbn [Str.startswith]. rewrite startswith_replace by assumption. exact H.
Qed.


(** A last character that is not in the pattern stays last. *)
Lemma replace_snoc (s : text) c :
  ~ In c old ->
  Str.replace (s ++ [c]) old new = Str.replace s old new ++ [c].
Proof.
  intros Hc. induction s as [s IH] using text_length_ind.
  assert (M : forall t : text, Str.startswith old (t ++ [c]) = true ->
                               length old <= length t).
  { intros t H. pose proof (startswith_length _ _ H) as L.
    rewrite length_app in L. simpl length in L |- *.
    destruct (Nat.eq_dec (length ot) (length t)) as [E|]; [exfalso|lia].
    apply startswith_split in H. rewrite skipn_all2 in H
      by (rewrite length_app; simpl length; lia).
    rewrite app_nil_r in H. apply Hc. rewrite <- H.
    apply in_or_app. right. now left. }
  destruct s as [|x s].
  - simpl app. destruct (Str.startswith old [c]) eqn:H.
    + apply (M []) in H. simpl in H. lia.
    + rewrite replace_miss by assumption. reflexivity.
  - destruct (Str.startswith old ((x :: s) ++ [c])) eqn:H.
    + pose proof (M _ H) as L.
      assert (Ha : Str.startswith old (x :: s) = true).
      { rewrite <- H. symmetry. apply startswith_short; assumption. }
      rewrite replace_hit by assumption.
      rewrite (replace_hit (x :: s)) by assumption.
      rewrite skipn_app.
      replace (length old - length (x :: s)) with 0 by lia.
      rewrite skipn_O, IH, <- app_assoc; [reflexivity|].
      rewrite length_skipn. simpl. lia.
    + assert (Ha : Str.startswith old (x :: s) = false).
      { destruct (Str.startswith old (x :: s)) eqn:Ha; [|reflexivity].
        apply startswith_app_l with (r := [c]) in Ha. congruence. }
      change ((x :: s) ++ [c]) with (x :: (s ++ [c])) in *.
      rewrite !replace_miss by assumption.
      rewrite IH by (simpl; lia). reflexivity.
Qed.

End Replace.

(** ** The transformer, [patch_help_test] *)

Lemma usage_old_cons : usage_old = hd 0%N usage_old :: tl usage_old.
Proof. reflexivity. Qed.

Lemma choices_old_cons : choices_old = hd 0%N choices_old :: tl choices_old.
Proof. reflexivity. Qed.

(** C5: on the input [usage: nitf-rename [options]] the first replacement
    gives the line [usage::], an empty line, and the line made of seven
    spaces and [nitf-rename [options]]; the second replacement changes
    nothing there. *)
Theorem usage_line_example :
  let out := Str.replace (py "usage: nitf-rename [options]") usage_old usage_new in
  out = py "usage::" ++ [nl] ++ [nl] ++ py "       nitf-rename [options]" /\
  split_lines out = [py "usage::"; []; repeat space 7 ++ py "nitf-rename [options]"] /\
  patch_help_test (py "usage: nitf-rename [options]") = out.
Proof. vm_compute. repeat split; reflexivity. Qed.


(** C6: a text with the token [{none,auto,git,hg,svn}] comes out of the
    transformer with [<none,auto,git,hg,svn>] in it and the braced token
    nowhere; on a text without the token the second replacement changes
    nothing, before or after the first one. *)
Theorem choices_rule (s : text) :
  if contains choices_old s
  then contains choices_new (patch_help_test s) = true /\
       contains choices_old (patch_help_test s) = false
  else Str.replace s choices_old choices_new = s /\
       patch_help_test s = Str.replace s usage_old usage_new.
Proof.
  unfold patch_help_test.
  assert (K : contains choices_old (Str.replace s usage_old usage_new)
              = contains choices_old s).
  { rewrite usage_old_cons. apply contains_replace; vm_compute; reflexivity. }
  destruct (contains choices_old s) eqn:E.
  - revert K. rewrite choices_old_cons. intros K. split.
    + apply replace_present; assumption.
    + apply replace_exhaustive; vm_compute; reflexivity.
  - revert K E. rewrite choices_old_cons. intros K E.
    split; apply replace_absent; assumption.
Qed.

(** ** The substitution [re.sub(r'[ \t]+(\n|\Z)', r'\1', s)] *)

Lemma sub_go_skip s k : Re.sub_go k s = Re.sub_go 0 (skipn k s).
Proof.
  revert k; induction s as [|c s IH]; intros [|k]; try reflexivity.
  simpl skipn. rewrite <- IH. reflexivity.
Qed.

Lemma is_blank_not_nl c : Re.is_blank c = true -> N.eqb c nl = false.
Proof.
  unfold Re.is_blank. rewrite orb_true_iff, !N.eqb_eq.
  intros [->| ->]; reflexivity.
Qed.

(** At a blank, the pattern matches exactly when only blanks remain on the
    line, and replacing the match amounts to dropping that one blank. *)
Lemma match_here_blank s c :
  Re.is_blank c = true ->
  if blank_to_eol s
  then exists n g, Re.match_here (c :: s) = Some (S n, g) /\
                   g ++ Re.sub (skipn n s) = Re.sub s
  else Re.match_here (c :: s) = None.
Proof.
  revert c; induction s as [|d s IH]; intros c Hc.
  - simpl. rewrite Hc. exists 0, []. split; reflexivity.
  - cbn [blank_to_eol]. destruct (N.eqb d nl) eqn:Hd.
    + apply N.eqb_eq in Hd; subst d. simpl orb.
      exists 1, [nl]. cbn. rewrite Hc. split; reflexivity.
    + simpl orb. destruct (Re.is_blank d) eqn:Bd.
      * specialize (IH d Bd). simpl andb.
        destruct (blank_to_eol s).
        -- destruct IH as (n & g & M & E). exists (S n), g.
           split.
           ++ change (Re.match_here (c :: d :: s)) with
                (if Re.is_blank c then
                   match Re.match_here (d :: s) with
                   | Some (n, g) => Some (S n, g)
                   | None => if N.eqb d nl then Some (2, [nl]) else None
                   end
                 else None).
              rewrite Hc, M. reflexivity.
           ++ unfold Re.sub at 2. cbn [Re.sub_go]. rewrite M.
              simpl Nat.sub. rewrite Nat.sub_0_r, sub_go_skip. reflexivity.
        -- change (Re.match_here (c :: d :: s)) with
             (if Re.is_blank c then
                match Re.match_here (d :: s) with
                | Some (n, g) => Some (S n, g)
                | None => if N.eqb d nl then Some (2, [nl]) else None
                end
              else None).
           rewrite Hc, IH, Hd. reflexivity.
      * simpl andb. cbn. rewrite Hc, Bd, Hd. reflexivity.
Qed.

Lemma sub_cons c s :
  Re.sub (c :: s) =
  if Re.is_blank c && blank_to_eol s then Re.sub s else c :: Re.sub s.
Proof.
  destruct (Re.is_blank c) eqn:Hc; simpl andb.
  - pose proof (match_here_blank s c Hc) as M.
    destruct (blank_to_eol s).
    + destruct M as (n & g & M & E).
      unfold Re.sub at 1. cbn [Re.sub_go]. rewrite M.
      simpl Nat.sub. rewrite Nat.sub_0_r, sub_go_skip. exact E.
    + unfold Re.sub. cbn [Re.sub_go]. rewrite M. reflexivity.
  - unfold Re.sub. cbn [Re.sub_go Re.match_here]. rewrite Hc. reflexivity.
Qed.

Lemma split_lines_cons s : exists l ls, split_lines s = l :: ls.
Proof.
  induction s as [|c s (l & ls & E)]; simpl; [eauto|].
  destruct (N.eqb c nl); [eauto|]. rewrite E; eauto.
Qed.

Lemma blank_to_eol_first_line s l ls :
  split_lines s = l :: ls ->
  blank_to_eol s = match rstrip_blank l with [] => true | _ => false end.
Proof.
  revert l ls; induction s as [|c s IH]; intros l ls E; simpl in E.
  - injection E as <- <-; reflexivity.
  - cbn [blank_to_eol]. destruct (N.eqb c nl) eqn:Hc.
    + injection E as <- <-; reflexivity.
    + destruct (split_lines s) as [|l' ls'] eqn:E'.
      * destruct (split_lines_cons s) as (? & ? & ?); congruence.
      * injection E as <- <-. rewrite (IH _ _ eq_refl). simpl.
        destruct (rstrip_blank l'); destruct (Re.is_blank c); reflexivity.
Qed.

Lemma strip_lines_cons c s :
  strip_lines (c :: s) =
  if Re.is_blank c && blank_to_eol s then strip_lines s
  else c :: strip_lines s.
Proof.
  unfold strip_lines. destruct (split_lines_cons s) as (l & ls & E).
  rewrite (blank_to_eol_first_line _ _ _ E). simpl split_lines.
  destruct (N.eqb c nl) eqn:Hc.
  - apply N.eqb_eq in Hc; subst c. rewrite E. reflexivity.
  - rewrite E. cbn [map rstrip_blank].
    destruct (rstrip_blank l) as [|x t]; destruct (Re.is_blank c);
      destruct ls; reflexivity.
Qed.

(** The substitution strips the trailing blanks of every line and changes
    nothing else. *)
Lemma sub_strip_lines s : Re.sub s = strip_lines s.
Proof.
  induction s as [|c s IH]; [reflexivity|].
  rewrite sub_cons, strip_lines_cons, IH. reflexivity.
Qed.

(** ** Lines *)

Lemma split_lines_app_nl a b :
  split_lines (a ++ nl :: b) = split_lines a ++ split_lines b.
Proof.
  induction a as [|c a IH]; [reflexivity|].
  cbn [app split_lines]. rewrite IH.
  destruct (N.eqb c nl); [reflexivity|].
  destruct (split_lines_cons a) as (l & ls & ->). reflexivity.
Qed.

Lemma split_lines_line l : ~ In nl l -> split_lines l = [l].
Proof.
  induction l as [|c l IH]; intros H; [reflexivity|].
  simpl. destruct (N.eqb_spec c nl) as [->|_]; [exfalso; apply H; now left|].
  rewrite IH; [reflexivity|]. intros K; apply H; now right.
Qed.

Lemma split_lines_no_nl s : Forall (fun l => ~ In nl l) (split_lines s).
Proof.
  induction s as [|c s IH]; simpl.
  - constructor; [intros []|constructor].
  - destruct (N.eqb_spec c nl) as [->|Hc].
    + constructor; [intros []|assumption].
    + destruct (split_lines s) as [|l ls]; [repeat constructor; simpl; intuition|].
      inversion IH as [|? ? Hl Hls]; subst. constructor; [|assumption].
      simpl; intuition.
Qed.

Lemma join_lines_cons l ls :
  ls <> [] -> join_lines (l :: ls) = l ++ nl :: join_lines ls.
Proof. destruct ls; [congruence|reflexivity]. Qed.

Lemma join_lines_app ls1 ls2 :
  ls1 <> [] -> ls2 <> [] ->
  join_lines (ls1 ++ ls2) = join_lines ls1 ++ nl :: join_lines ls2.
Proof.
  intros H1 H2. induction ls1 as [|l ls1 IH]; [congruence|].
  destruct ls1 as [|l' ls1].
  - simpl app. rewrite join_lines_cons by assumption. reflexivity.
  - change ((l :: l' :: ls1) ++ ls2) with (l :: (l' :: ls1) ++ ls2).
    rewrite !join_lines_cons, IH, <- app_assoc by discriminate. reflexivity.
Qed.

Lemma split_join_lines ls :
  ls <> [] -> Forall (fun l => ~ In nl l) ls ->
  split_lines (join_lines ls) = ls.
Proof.
  induction ls as [|l ls IH]; [congruence|]. intros _ F.
  inversion F as [|? ? Hl Hls]; subst. destruct ls as [|l' ls].
  - apply split_lines_line; assumption.
  - rewrite join_lines_cons, split_lines_app_nl by discriminate.
    rewrite split_lines_line, IH by (assumption || discriminate). reflexivity.
Qed.

Lemma strip_lines_app_nl a b :
  strip_lines (a ++ nl :: b) = strip_lines a ++ nl :: strip_lines b.
Proof.
  unfold strip_lines. rewrite split_lines_app_nl, map_app.
  destruct (split_lines_cons a) as (l & ls & ->).
  destruct (split_lines_cons b) as (l' & ls' & ->).
  apply join_lines_app; discriminate.
Qed.

Lemma ends_with_snoc p s c : ends_with p (s ++ [c]) = p c.
Proof.
  induction s as [|d s IH]; [reflexivity|].
  cbn [app ends_with]. rewrite IH. destruct s; reflexivity.
Qed.

Lemma ends_with_false_inv p s :
  ends_with p s = false ->
  s = [] \/ exists s' c, s = s' ++ [c] /\ p c = false.
Proof.
  destruct s as [|d s] using rev_ind; [now left|]. rewrite ends_with_snoc.
  intros H; right; eauto.
Qed.

Lemma rstrip_blank_incl c l : In c (rstrip_blank l) -> In c l.
Proof.
  induction l as [|d l IH]; [intros []|]. simpl.
  destruct (rstrip_blank l) as [|x t].
  - destruct (Re.is_blank d); simpl; tauto.
  - simpl. simpl in IH. tauto.
Qed.

Lemma rstrip_blank_ends l : ends_with Re.is_blank (rstrip_blank l) = false.
Proof.
  induction l as [|d l IH]; [reflexivity|]. simpl.
  destruct (rstrip_blank l) as [|x t].
  - destruct (Re.is_blank d) eqn:E; simpl; congruence.
  - exact IH.
Qed.

Lemma rstrip_blank_split l :
  exists bs, l = rstrip_blank l ++ bs /\ forallb Re.is_blank bs = true.
Proof.
  induction l as [|d l (bs & E & B)]; [exists []; split; reflexivity|].
  simpl. destruct (rstrip_blank l) as [|x t].
  - destruct (Re.is_blank d) eqn:Hd.
    + exists (d :: bs). simpl in E; subst bs. simpl. rewrite Hd, B.
      split; reflexivity.
    + exists bs. simpl in E; subst bs. split; [reflexivity|assumption].
  - exists bs. rewrite E at 1. split; [reflexivity|assumption].
Qed.

(** ** [str.rstrip] *)

Lemma rstrip_ends s : ends_with Str.isspace (Str.rstrip s) = false.
Proof.
  induction s as [|d s IH]; [reflexivity|]. simpl.
  destruct (Str.rstrip s) as [|x t].
  - destruct (Str.isspace d) eqn:E; simpl; congruence.
  - exact IH.
Qed.


Lemma is_blank_isspace c : Re.is_blank c = true -> Str.isspace c = true.
Proof.
  unfold Re.is_blank. rewrite orb_true_iff, !N.eqb_eq.
  intros [->| ->]; reflexivity.
Qed.

Lemma strip_lines_snoc s c :
  Re.is_blank c = false -> exists g, strip_lines (s ++ [c]) = g ++ [c].
Proof.
  intros Hc. induction s as [|d s (g & IH)].
  - exists []. simpl app. rewrite strip_lines_cons, Hc. reflexivity.
  - cbn [app]. rewrite strip_lines_cons, IH.
    destruct (Re.is_blank d && blank_to_eol (s ++ [c])).
    + exists g; reflexivity.
    + exists (d :: g); reflexivity.
Qed.

Lemma strip_lines_ends s :
  ends_with Str.isspace s = false ->
  ends_with Str.isspace (strip_lines s) = false.
Proof.
  intros H. apply ends_with_false_inv in H as [->|(s' & c & -> & Hc)];
    [reflexivity|].
  destruct (strip_lines_snoc s' c) as (g & ->).
  - destruct (Re.is_blank c) eqn:B; [|reflexivity].
    apply is_blank_isspace in B; congruence.
  - now rewrite ends_with_snoc.
Qed.

(** ** The capture, before the transformer *)

Lemma capture_shape stdout :
  exists body, help_output_stripped stdout = (body ++ [nl]) ++ [nl].
Proof.
  exists (strip_lines (Str.rstrip stdout)).
  unfold help_output_stripped, help_output_captured.
  rewrite sub_strip_lines, strip_lines_app_nl, <- app_assoc. reflexivity.
Qed.


(** ** [str.find] and slices *)

Lemma index_of_unfold sub s :
  Str.index_of sub s =
  if Str.startswith sub s then Some 0
  else match s with
       | [] => None
       | _ :: s' => option_map S (Str.index_of sub s')
       end.
Proof. destruct s; reflexivity. Qed.

Lemma index_of_first sub s k :
  k <= length s ->
  Str.startswith sub (skipn k s) = true ->
  (forall j, j < k -> Str.startswith sub (skipn j s) = false) ->
  Str.index_of sub s = Some k.
Proof.
  revert s; induction k as [|k IH]; intros s L H N; rewrite index_of_unfold.
  - simpl in H. now rewrite H.
  - pose proof (N 0 ltac:(lia)) as N0. simpl in N0. rewrite N0.
    destruct s as [|c s]; [simpl in L; lia|].
    rewrite (IH s); [reflexivity|simpl in L; lia|exact H|].
    intros j Hj. apply (N (S j)). lia.
Qed.

Lemma index_of_none sub s :
  (forall j, j <= length s -> Str.startswith sub (skipn j s) = false) ->
  Str.index_of sub s = None.
Proof.
  induction s as [|c s IH]; intros N; rewrite index_of_unfold;
    pose proof (N 0 ltac:(simpl; lia)) as N0; simpl in N0; rewrite N0.
  - reflexivity.
  - rewrite IH; [reflexivity|].
    intros j Hj. apply (N (S j)). simpl; lia.
Qed.

(** [find] answers the first occurrence at or after [start]. *)
Lemma find_first_occurrence s sub start i :
  first_occurrence_from sub s start i ->
  Str.find s sub (Z.of_nat start) = Z.of_nat i.
Proof.
  intros (Hs & Ho & Hn). pose proof Ho as [Hi _].
  unfold Str.find, len.
  destruct (Z.ltb_spec (Z.of_nat start) 0) as [?|_]; [lia|].
  destruct (Z.ltb_spec (Z.of_nat (length s)) (Z.of_nat start)) as [?|_]; [lia|].
  rewrite Nat2Z.id, (index_of_first _ _ (i - start)).
  - lia.
  - rewrite length_skipn. lia.
  - rewrite skipn_skipn. replace (i - start + start) with i by lia.
    now apply occurs_at_iff in Ho.
  - intros j Hj. rewrite skipn_skipn.
    destruct (Str.startswith sub (skipn (j + start) s)) eqn:E; [|reflexivity].
    exfalso. apply (Hn (j + start)); [lia|].
    apply occurs_at_iff. split; [lia|assumption].
Qed.

(** [find] answers [-1] when there is no occurrence at or after [start]. *)
Lemma find_no_occurrence s sub start :
  (forall j, start <= j -> ~ occurs_at sub s j) ->
  Str.find s sub (Z.of_nat start) = (-1)%Z.
Proof.
  intros Hn. unfold Str.find, len.
  destruct (Z.ltb_spec (Z.of_nat start) 0) as [?|_]; [lia|].
  destruct (Z.ltb_spec (Z.of_nat (length s)) (Z.of_nat start)) as [|L];
    [reflexivity|].
  rewrite Nat2Z.id, index_of_none; [reflexivity|].
  intros j Hj. rewrite length_skipn in Hj. rewrite skipn_skipn.
  destruct (Str.startswith sub (skipn (j + start) s)) eqn:E; [|reflexivity].
  exfalso. apply (Hn (j + start)); [lia|].
  apply occurs_at_iff. split; [lia|assumption].
Qed.

Lemma slice_to_nat s n : Str.slice_to s (Z.of_nat n) = firstn n s.
Proof.
  unfold Str.slice_to, Str.clip, len.
  destruct (Z.ltb_spec (Z.of_nat n) 0) as [?|_]; [lia|].
  destruct (le_lt_dec n (length s)).
  - rewrite Z.min_l, Nat2Z.id by lia. reflexivity.
  - rewrite Z.min_r, Nat2Z.id by lia.
    rewrite !firstn_all2 by lia. reflexivity.
Qed.

Lemma slice_from_nat s n : Str.slice_from s (Z.of_nat n) = skipn n s.
Proof.
  unfold Str.slice_from, Str.clip, len.
  destruct (Z.ltb_spec (Z.of_nat n) 0) as [?|_]; [lia|].
  destruct (le_lt_dec n (length s)).
  - rewrite Z.min_l, Nat2Z.id by lia. reflexivity.
  - rewrite Z.min_r, Nat2Z.id by lia.
    rewrite !skipn_all2 by lia. reflexivity.
Qed.

(** Whether [sub] occurs at [i] depends on the first [i + len(sub)]
    characters only. *)
Lemma occurs_at_agree sub s s' i :
  firstn (i + length sub) s = firstn (i + length sub) s' ->
  occurs_at sub s i -> occurs_at sub s' i.
Proof.
  intros E [L H]. unfold occurs_at.
  assert (L' : i + length sub <= length s').
  { apply (f_equal (@length _)) in E. rewrite !length_firstn in E. lia. }
  split; [assumption|].
  rewrite firstn_skipn_comm in *. rewrite <- E. exact H.
Qed.

Lemma firstn_plus {A} n m (l : list A) :
  firstn (n + m) l = firstn n l ++ firstn m (skipn n l).
Proof.
  revert l; induction n as [|n IH]; intros [|x l]; simpl;
    try reflexivity.
  - now rewrite firstn_nil.
  - now rewrite IH.
Qed.

Lemma firstn_agree_le {A} n m (s s' : list A) :
  n <= m -> firstn m s = firstn m s' -> firstn n s = firstn n s'.
Proof.
  intros L E. apply (f_equal (firstn n)) in E.
  rewrite !firstn_firstn in E. now replace (Nat.min n m) with n in E by lia.
Qed.

(** ** The splicer *)

(** The end marker cannot begin inside the begin marker. *)
Lemma markers_disjoint s b e :
  occurs_at help_begin_text s b -> occurs_at help_end_text s e -> b <= e ->
  b + length help_begin_text <= e.
Proof.
  intros Hb He L.
  apply occurs_at_iff in Hb as [_ Hb]. apply occurs_at_iff in He as [_ He].
  destruct (le_lt_dec (b + length help_begin_text) e) as [|K];
    [assumption|exfalso].
  apply startswith_split in Hb.
  replace e with ((e - b) + b) in He by lia.
  rewrite <- skipn_skipn, Hb in He.
  assert (D : e - b < 18) by (change (length help_begin_text) with 18 in K; lia).
  set (r := skipn (length help_begin_text) (skipn b s)) in He. clearbody r.
  revert D He. generalize (e - b) as d. clear. intros d D He.
  do 18 (destruct d as [|d]; [vm_compute in He; discriminate|]). lia.
Qed.

Section Located.

Variables (data : text) (b e : nat).
Hypothesis begin_found : first_occurrence help_begin_text data b.
Hypothesis end_found : first_occurrence_from help_end_text data b e.

Lemma help_begin_index_found : help_begin_index data = Z.of_nat b.
Proof. apply (find_first_occurrence data help_begin_text 0 b begin_found). Qed.

Lemma help_end_index_found : help_end_index data = Z.of_nat e.
Proof.
  unfold help_end_index. rewrite help_begin_index_found.
  apply find_first_occurrence, end_found.
Qed.

Lemma insertion_index_found : insertion_index data = Z.of_nat (b + 19).
Proof.
  unfold insertion_index. rewrite help_begin_index_found.
  change (len help_begin_text) with 18%Z. lia.
Qed.

Lemma end_after_begin : b + 18 <= e /\ e + 16 <= length data.
Proof.
  destruct begin_found as (_ & Hb & _), end_found as (L & He & _). split.
  - apply (markers_disjoint data b e Hb He L).
  - apply He.
Qed.

(** With both markers located, the text written is the first [b + 19]
    characters of the file, the help text, and the file from the end marker
    on. *)
Lemma splice_found help_output :
  splice data help_output =
  Update (firstn (b + 19) data ++ help_output ++ skipn e data).
Proof.
  unfold splice.
  rewrite insertion_index_found, help_end_index_found, help_begin_index_found.
  destruct (Z.eqb_spec (Z.of_nat b) (-1)) as [?|_]; [lia|].
  destruct (Z.eqb_spec (Z.of_nat e) (-1)) as [?|_]; [lia|].
  rewrite slice_to_nat, slice_from_nat. reflexivity.
Qed.

Lemma prefix_through_marker :
  firstn (b + 19) data =
  firstn b data ++ help_begin_text ++ firstn 1 (skipn (b + 18) data).
Proof.
  destruct begin_found as (_ & [_ Hb] & _).
  change (length help_begin_text) with 18 in Hb.
  replace (b + 19) with (b + (18 + 1)) by lia.
  rewrite !firstn_plus, Hb, skipn_skipn.
  now replace (18 + b) with (b + 18) by lia.
Qed.

End Located.

(** *** From the answers of [find] back to occurrences *)

Lemma index_of_Some sub s k :
  Str.index_of sub s = Some k ->
  k <= length s /\ Str.startswith sub (skipn k s) = true /\
  forall j, j < k -> Str.startswith sub (skipn j s) = false.
Proof.
  revert k; induction s as [|c s IH]; intros k; rewrite index_of_unfold;
    destruct (Str.startswith sub _) eqn:H.
  - intros [= <-]. split; [|split]; [simpl; lia|assumption|lia].
  - discriminate.
  - intros [= <-]. split; [|split]; [simpl; lia|assumption|lia].
  - destruct (Str.index_of sub s) as [k'|]; [|discriminate].
    intros [= <-]. destruct (IH k' eq_refl) as (L & Hk & N).
    split; [|split]; [simpl; lia|assumption|].
    intros [|j] Hj; [assumption|]. apply N. lia.
Qed.

Lemma find_sound s sub start i :
  start <= length s ->
  Str.find s sub (Z.of_nat start) = Z.of_nat i ->
  first_occurrence_from sub s start i.
Proof.
  intros L. unfold Str.find, len.
  destruct (Z.ltb_spec (Z.of_nat start) 0) as [?|_]; [lia|].
  destruct (Z.ltb_spec (Z.of_nat (length s)) (Z.of_nat start)) as [?|_]; [lia|].
  rewrite Nat2Z.id.
  destruct (Str.index_of sub (skipn start s)) as [k|] eqn:E; [|lia].
  intros Hi. assert (i = start + k) by lia. subst i. clear Hi.
  apply index_of_Some in E as (Lk & Hk & N).
  rewrite length_skipn in Lk. rewrite skipn_skipn in Hk.
  split; [lia|]. split.
  - apply occurs_at_iff. split; [lia|].
    now replace (start + k) with (k + start) by lia.
  - intros j Hj Ho. apply occurs_at_iff in Ho as [_ Ho].
    specialize (N (j - start) ltac:(lia)). rewrite skipn_skipn in N.
    replace (j - start + start) with j in N by lia. congruence.
Qed.

Lemma contains_false_no_occurrence sub s b :
  contains sub (skipn b s) = false ->
  forall j, b <= j -> ~ occurs_at sub s j.
Proof.
  intros C j Hj Ho. apply occurs_at_iff in Ho as [L Ho].
  assert (K : contains sub (skipn b s) = true); [|congruence].
  apply contains_iff. exists (j - b). apply occurs_at_iff.
  rewrite length_skipn, skipn_skipn.
  replace (j - b + b) with j by lia. split; [lia|assumption].
Qed.

(** *** Lines of the file *)

Lemma line_end_skip s i :
  i <= length s -> line_end s i = i + line_end (skipn i s) 0.
Proof.
  revert i; induction s as [|c s IH]; intros [|i] L; try reflexivity.
  - simpl in L; lia.
  - simpl in L. cbn [line_end skipn]. rewrite IH by lia. reflexivity.
Qed.

Lemma line_end_le s i : line_end s i <= length s.
Proof.
  revert i; induction s as [|c s IH]; intros i; [simpl; lia|].
  destruct i as [|i]; cbn [line_end].
  - destruct (N.eqb c nl); [simpl; lia|]. specialize (IH 0). simpl; lia.
  - specialize (IH i). simpl; lia.
Qed.

Lemma line_end_nl (s : text) i k :
  line_end s i = S k -> S k < length s -> i <= k -> nth k s 0%N = nl.
Proof.
  revert i k; induction s as [|c s IH]; intros i k E L Hi; [discriminate|].
  destruct i as [|i]; cbn [line_end] in E.
  - destruct (N.eqb_spec c nl) as [->|_].
    + injection E as <-. reflexivity.
    + injection E as E. destruct k as [|k].
      * destruct s; [simpl in L; lia|]. simpl in E.
        destruct (N.eqb c0 nl); discriminate.
      * simpl. apply (IH 0); [assumption|simpl in L; lia|lia].
  - injection E as E. destruct k as [|k]; [lia|].
    simpl. apply (IH i); [assumption|simpl in L; lia|lia].
Qed.

Lemma skipn_nth (s : text) n :
  n < length s -> skipn n s = nth n s 0%N :: skipn (S n) s.
Proof.
  revert n; induction s as [|c s IH]; intros n L; [simpl in L; lia|].
  destruct n as [|n]; [reflexivity|].
  simpl in L. cbn [skipn nth]. rewrite IH by lia. reflexivity.
Qed.

Lemma nth_nl_length (s : text) n : nth n s 0%N = nl -> n < length s.
Proof.
  intros H. destruct (le_lt_dec (length s) n) as [L|]; [|assumption].
  rewrite nth_overflow in H by assumption. discriminate.
Qed.

Section MarkerLine.

Variables (data : text) (b e : nat).
Hypothesis begin_found : first_occurrence help_begin_text data b.
Hypothesis end_found : first_occurrence_from help_end_text data b e.

Lemma skipn_begin :
  skipn b data = help_begin_text ++ skipn (b + 18) data.
Proof.
  destruct begin_found as (_ & Hb & _). apply occurs_at_iff in Hb as [_ Hb].
  rewrite (startswith_split _ _ Hb) at 1. rewrite skipn_skipn.
  change (length help_begin_text) with 18.
  now replace (18 + b) with (b + 18) by lia.
Qed.

Section Terminated.

Hypothesis terminated : nth (b + 18) data 0%N = nl.

Lemma marker_line_end : line_end data b = b + 19.
Proof.
  pose proof (nth_nl_length _ _ terminated) as L.
  rewrite line_end_skip by lia.
  rewrite skipn_begin, (skipn_nth data (b + 18)), terminated by assumption.
  change (line_end (help_begin_text ++ nl :: skipn (S (b + 18)) data) 0)
    with 19.
  reflexivity.
Qed.



End Terminated.

End MarkerLine.




(** C4 (amended): with both markers located, the insertion point is the
    offset of the begin marker plus the length of the marker plus one.  The
    text kept before it is the file through the one character after the
    marker; that is the file through the begin-marker line exactly when
    that character is a line terminator. *)
Theorem insertion_point (data : text) (b e : nat) :
  first_occurrence help_begin_text data b ->
  first_occurrence_from help_end_text data b e ->
  insertion_index data = (Z.of_nat b + len help_begin_text + 1)%Z /\
  Str.slice_to data (insertion_index data) =
    firstn b data ++ help_begin_text ++
    firstn 1 (skipn (b + length help_begin_text) data) /\
  (Str.slice_to data (insertion_index data) = firstn (line_end data b) data
   <-> nth (b + length help_begin_text) data 0%N = nl).
Proof.
  intros Hb He. change (length help_begin_text) with 18.
  pose proof (insertion_index_found data b Hb) as I.
  destruct (end_after_begin data b e Hb He) as [L1 L2].
  split; [|split].
  - rewrite I. change (len help_begin_text) with 18%Z. lia.
  - rewrite I, slice_to_nat. apply prefix_through_marker; assumption.
  - rewrite I, slice_to_nat. split.
    + intros E.
      assert (K : line_end data b = S (b + 18)).
      { apply (f_equal (@length _)) in E. rewrite !length_firstn in E.
        pose proof (line_end_le data b). lia. }
      apply (line_end_nl data b (b + 18) K); lia.
    + intros Hnl. now rewrite (marker_line_end data b Hb Hnl).
Qed.

Lemma insertion_point_witness :
  insertion_index readme_plain = 25%Z /\
  Str.slice_to readme_plain (insertion_index readme_plain) =
    py "Usage" ++ [nl] ++ py ".. BEGIN HELP TEXT" ++ [nl].
Proof.
  destruct (insertion_point readme_plain 6 36) as (I & P & _).
  - apply (find_sound readme_plain help_begin_text 0 6);
      [simpl; lia|vm_compute; reflexivity].
  - apply (find_sound readme_plain help_end_text 6 36);
      [simpl; lia|vm_compute; reflexivity].
  - split; [exact I|exact P].
Defined.

(** C4 as stated fails: where the begin-marker line goes on after the
    marker, the insertion point is one character after the marker, inside
    the line, and the text kept before it is not the file through that
    line. *)
Lemma insertion_point_inside_line :
  let data := readme_remark in
  first_occurrence help_begin_text data 0 /\
  first_occurrence_from help_end_text data 0 33 /\
  insertion_index data = 19%Z /\
  line_end data 0 = 33 /\
  Str.slice_to data (insertion_index data) = py ".. BEGIN HELP TEXT " /\
  Str.slice_to data (insertion_index data) <> firstn (line_end data 0) data.
Proof.
  split; [|split; [|split; [|split; [|split]]]].
  - apply (find_sound readme_remark help_begin_text 0 0);
      [simpl; lia|vm_compute; reflexivity].
  - apply (find_sound readme_remark help_end_text 0 33);
      [simpl; lia|vm_compute; reflexivity].
  - vm_compute; reflexivity.
  - vm_compute; reflexivity.
  - vm_compute; reflexivity.
  - vm_compute; discriminate.
Qed.

(** *** Splicing into the result of a splice *)

Lemma startswith_firstn u y q :
  Str.startswith u (y ++ q) = true -> length y <= length u ->
  y = firstn (length y) u.
Proof.
  revert u; induction y as [|c y IH]; intros u H L; [reflexivity|].
  destruct u as [|d u]; [simpl in L; lia|].
  simpl in H. apply andb_true_iff in H as [Hc H]. apply N.eqb_eq in Hc.
  subst d. simpl. f_equal. apply IH; [assumption|simpl in L; lia].
Qed.

Lemma ends_with_skipn p (s : text) k :
  k < length s -> ends_with p s = true -> ends_with p (skipn k s) = true.
Proof.
  revert s; induction k as [|k IH]; intros s L H; [assumption|].
  destruct s as [|c s]; [discriminate|]. simpl in L.
  destruct s as [|d s]; [simpl in L; lia|].
  apply IH; [simpl in *; lia|exact H].
Qed.

Lemma ends_with_In p (s : text) :
  ends_with p s = true -> exists c, In c s /\ p c = true.
Proof.
  induction s as [|c s IH]; [discriminate|]. destruct s as [|d s].
  - intros H. exists c. split; [now left|assumption].
  - intros H. destruct (IH H) as (x & Hx & Px).
    exists x. split; [now right|assumption].
Qed.

Section Respliced.

Variables (data help_output : text) (b e : nat).
Hypothesis begin_found : first_occurrence help_begin_text data b.
Hypothesis end_found : first_occurrence_from help_end_text data b e.

(** The text written by the first splice, and the offset at which it holds
    the end marker of the original file. *)
Local Abbreviation data_update :=
  (firstn (b + 19) data ++ help_output ++ skipn e data).
Local Abbreviation end' := (length data_update - (length data - e)).

Lemma kept_end_offset : end' = b + 19 + length help_output.
Proof.
  destruct (end_after_begin data b e begin_found end_found) as [L1 L2].
  rewrite !length_app, length_firstn, length_skipn. lia.
Qed.

Lemma update_prefix : firstn (b + 19) data_update = firstn (b + 19) data.
Proof.
  destruct (end_after_begin data b e begin_found end_found) as [L1 L2].
  rewrite firstn_app, length_firstn.
  replace (b + 19 - Nat.min (b + 19) (length data)) with 0 by lia.
  rewrite firstn_O, app_nil_r, firstn_firstn. f_equal; lia.
Qed.

Lemma update_suffix : skipn end' data_update = skipn e data.
Proof.
  destruct (end_after_begin data b e begin_found end_found) as [L1 L2].
  rewrite kept_end_offset.
  replace (b + 19 + length help_output)
    with (length (firstn (b + 19) data ++ help_output))
    by (rewrite length_app, length_firstn; lia).
  rewrite (app_assoc (firstn (b + 19) data)).
  rewrite skipn_app, skipn_all, Nat.sub_diag. reflexivity.
Qed.

(** The begin marker found in the result is the one of the original. *)
Lemma begin_marker_kept : first_occurrence help_begin_text data_update b.
Proof.
  pose proof update_prefix as P.
  destruct begin_found as (_ & Hb & N). split; [lia|]. split.
  - apply (occurs_at_agree _ data); [|assumption].
    change (length help_begin_text) with 18.
    symmetry. apply (firstn_agree_le _ (b + 19)); [lia|assumption].
  - intros j Hj Ho. apply (N j Hj).
    apply (occurs_at_agree _ data_update); [|assumption].
    change (length help_begin_text) with 18.
    apply (firstn_agree_le _ (b + 19)); [lia|assumption].
Qed.

(** When the end marker found in the result is the one of the original, a
    second splice of the same help text gives the same text again. *)
Lemma splice_again :
  first_occurrence_from help_end_text data_update b end' ->
  splice data_update help_output = Update data_update.
Proof.
  intros He'.
  rewrite (splice_found data_update b _ begin_marker_kept He').
  rewrite update_prefix, update_suffix. reflexivity.
Qed.

(** That is so whenever the help text begins and ends with a line
    terminator, as the one [main] builds does, and holds no end marker. *)
Lemma end_marker_kept :
  contains help_end_text help_output = false ->
  hd_error help_output = Some nl ->
  ends_with (N.eqb nl) help_output = true ->
  first_occurrence_from help_end_text data_update b end'.
Proof.
  intros C Hhd Hend.
  destruct (end_after_begin data b e begin_found end_found) as [L1 L2].
  pose proof kept_end_offset as T.
  assert (Lp : length (firstn (b + 19) data) = b + 19)
    by (rewrite length_firstn; lia).
  split; [lia|]. split.
  - apply occurs_at_iff. rewrite update_suffix. split.
    + rewrite !length_app, length_firstn, length_skipn. lia.
    + destruct end_found as (_ & He & _). now apply occurs_at_iff in He.
  - intros j Hj Ho.
    destruct (le_lt_dec (b + 18) j) as [Lj|Lj].
    2:{ destruct begin_marker_kept as (_ & Hb' & _).
        pose proof (markers_disjoint _ b j Hb' Ho ltac:(lia)) as K.
        change (length help_begin_text) with 18 in K. lia. }
    apply occurs_at_iff in Ho as [_ Ho].
    destruct help_output as [|x X] eqn:EX; [discriminate|].
    injection Hhd as ->.
    destruct (Nat.eq_dec j (b + 18)) as [->|Nj].
    + rewrite skipn_app, Lp in Ho.
      replace (b + 18 - (b + 19)) with 0 in Ho by lia.
      rewrite skipn_O in Ho.
      assert (L1' : length (skipn (b + 18) (firstn (b + 19) data)) = 1)
        by (rewrite length_skipn, Lp; lia).
      destruct (skipn (b + 18) (firstn (b + 19) data)) as [|c [|? ?]];
        try discriminate.
      cbn in Ho. rewrite andb_false_r in Ho. discriminate.
    + rewrite <- EX in *. clear EX.
      set (k := j - (b + 19)).
      assert (Hk : k < length help_output) by (unfold k; lia).
      assert (E : skipn j data_update = skipn k help_output ++ skipn e data).
      { rewrite skipn_app, Lp, skipn_all2 by lia. rewrite app_nil_l.
        rewrite skipn_app. fold k.
        replace (k - length help_output) with 0 by lia.
        reflexivity. }
      rewrite E in Ho. clear E.
      destruct (le_lt_dec (length help_end_text)
                  (length (skipn k help_output))) as [Ll|Ll].
      * rewrite startswith_short in Ho by assumption.
        assert (K : contains help_end_text help_output = true); [|congruence].
        apply contains_iff. exists k. apply occurs_at_iff. split; [lia|exact Ho].
      * apply startswith_firstn in Ho; [|lia].
        pose proof (ends_with_skipn _ _ k Hk Hend) as Hn.
        apply ends_with_In in Hn as (c & Hc & Pc).
        apply N.eqb_eq in Pc. subst c.
        assert (K : In nl help_end_text).
        { rewrite <- (firstn_skipn (length (skipn k help_output))
                        help_end_text).
          apply in_or_app. left. rewrite <- Ho. exact Hc. }
        vm_compute in K. intuition discriminate.
Qed.

End Respliced.

(** C2: splicing the same help text into the result of a splice changes
    nothing, provided the markers found in the result are the original
    ones, that is, the first end marker at or after the begin marker is
    still the one the original file had there, now right after the help
    text.  So a second run of [main] with the same output of the command
    leaves the file as the first run wrote it. *)
Theorem splice_idempotent (data help_output data_update : text) (b e : nat) :
  first_occurrence help_begin_text data b ->
  first_occurrence_from help_end_text data b e ->
  splice data help_output = Update data_update ->
  first_occurrence_from help_end_text data_update b
    (length data_update - (length data - e)) ->
  splice data_update help_output = Update data_update /\
  forall rc stdout log,
    help_output = help_output_final stdout ->
    let p := Completed rc (Some stdout) in
    let w1 := World (Some data_update) log in
    main p (World (Some data) log) = (Returned, w1) /\
    main p w1 = (Returned, w1).
Proof.
  intros Hb He S1 He'.
  pose proof S1 as S1'.
  rewrite (splice_found data b e Hb He) in S1'. injection S1' as <-.
  pose proof (splice_again data help_output b e Hb He He') as S2.
  split; [exact S2|].
  intros rc stdout log -> p w1. unfold p, w1, main, readme_rst.
  rewrite S2, S1. split; reflexivity.
Qed.

(** The help text [main] builds begins and ends with a line terminator. *)
Lemma help_output_final_shape stdout :
  hd_error (help_output_final stdout) = Some nl /\
  ends_with (N.eqb nl) (help_output_final stdout) = true.
Proof.
  split; [reflexivity|].
  unfold help_output_final, patch_help_test.
  destruct (capture_shape stdout) as (body & ->).
  rewrite usage_old_cons, replace_snoc by (vm_compute; intuition discriminate).
  rewrite choices_old_cons, replace_snoc by (vm_compute; intuition discriminate).
  rewrite app_assoc. apply ends_with_snoc.
Qed.

(** X14: two runs of [main] on the same output of the command: when the help
    text built from it holds no end marker, the second run writes what the
    first one wrote. *)
Corollary main_twice rc stdout data b e log :
  first_occurrence help_begin_text data b ->
  first_occurrence_from help_end_text data b e ->
  contains help_end_text (help_output_final stdout) = false ->
  exists data_update,
    let p := Completed rc (Some stdout) in
    let w1 := World (Some data_update) log in
    main p (World (Some data) log) = (Returned, w1) /\
    main p w1 = (Returned, w1).
Proof.
  intros Hb He C.
  destruct (help_output_final_shape stdout) as [Hhd Hend].
  pose proof (end_marker_kept data _ b e Hb He C Hhd Hend) as He'.
  pose proof (splice_again data _ b e Hb He He') as S2.
  eexists. cbv zeta. unfold main, readme_rst.
  rewrite (splice_found data b e Hb He), S2. split; reflexivity.
Qed.

Lemma splice_idempotent_witness :
  let help_output := help_output_final help_sample in
  let data_update :=
    firstn 25 readme_plain ++ help_output ++ skipn 36 readme_plain in
  splice readme_plain help_output = Update data_update /\
  splice data_update help_output = Update data_update.
Proof.
  intros help_output data_update.
  assert (S1 : splice readme_plain help_output = Update data_update)
    by (vm_compute; reflexivity).
  split; [exact S1|].
  apply (splice_idempotent readme_plain help_output data_update 6 36).
  - apply (find_sound readme_plain help_begin_text 0 6);
      [simpl; lia|vm_compute; reflexivity].
  - apply (find_sound readme_plain help_end_text 6 36);
      [simpl; lia|vm_compute; reflexivity].
  - exact S1.
  - apply (find_sound data_update help_end_text 6);
      [vm_compute; lia|vm_compute; reflexivity].
Defined.

(** The condition of C2 is needed: a help text that itself holds the end
    marker is spliced in a second time before the copy left by the first
    run. *)
Example splice_twice_with_marker_in_help :
  let help_output := py ".. END HELP TEXT is the end marker" ++ [nl] in
  exists once twice,
    splice readme_plain help_output = Update once /\
    splice once help_output = Update twice /\
    length twice = length once + length help_output.
Proof.
  eexists; eexists. split; [|split]; vm_compute; reflexivity.
Qed.

Lemma splice_missing_begin data help_output :
  (forall i, ~ occurs_at help_begin_text data i) ->
  splice data help_output = NotFound help_begin_text.
Proof.
  intros N. unfold splice, help_begin_index.
  assert (F : Str.find data help_begin_text 0 = (-1)%Z).
  { apply (find_no_occurrence data help_begin_text 0). intros j _. apply N. }
  rewrite F. reflexivity.
Qed.

Lemma splice_missing_end data help_output b :
  first_occurrence help_begin_text data b ->
  (forall j, b <= j -> ~ occurs_at help_end_text data j) ->
  splice data help_output = NotFound help_end_text.
Proof.
  intros Hb N. unfold splice, help_end_index.
  rewrite (help_begin_index_found data b Hb).
  rewrite (find_no_occurrence data help_end_text b N).
  destruct (Z.eqb_spec (Z.of_nat b) (-1)) as [?|_]; [lia|reflexivity].
Qed.

(** C3: when the file has no begin marker, and when it has one but no end
    marker at or after the first, [main] prints the error line that names
    the marker not found and returns with the file as it was. *)
Theorem missing_marker_reported
    (rc : Z) (stdout data : text) (log : list text) :
  let p := Completed rc (Some stdout) in
  let w := World (Some data) log in
  ((forall i, ~ occurs_at help_begin_text data i) ->
   main p w =
   (Returned,
    World (Some data)
      (log ++ [py "Error: '.. BEGIN HELP TEXT' not found"]))) /\
  (forall b,
     first_occurrence help_begin_text data b ->
     (forall j, b <= j -> ~ occurs_at help_end_text data j) ->
     main p w =
     (Returned,
      World (Some data)
        (log ++ [py "Error: '.. END HELP TEXT' not found"]))).
Proof.
  intros p w. split.
  - intros N. unfold p, w, main, readme_rst.
    rewrite (splice_missing_begin data _ N). reflexivity.
  - intros b Hb N. unfold p, w, main, readme_rst.
    rewrite (splice_missing_end data _ b Hb N). reflexivity.
Qed.

Lemma missing_marker_witness :
  main (Completed 0 (Some help_sample)) (World (Some readme_no_begin) []) =
    (Returned,
     World (Some readme_no_begin)
       [py "Error: '.. BEGIN HELP TEXT' not found"]) /\
  main (Completed 0 (Some help_sample)) (World (Some readme_no_end) []) =
    (Returned,
     World (Some readme_no_end)
       [py "Error: '.. END HELP TEXT' not found"]).
Proof.
  split.
  - apply (proj1 (missing_marker_reported 0 help_sample readme_no_begin [])).
    intros i. apply (contains_false_no_occurrence _ readme_no_begin 0);
      [vm_compute; reflexivity|lia].
  - apply (proj2 (missing_marker_reported 0 help_sample readme_no_end []) 17).
    + apply (find_sound readme_no_end help_begin_text 0 17);
        [simpl; lia|vm_compute; reflexivity].
    + apply contains_false_no_occurrence. vm_compute; reflexivity.
Defined.

(** ** The heading *)

(** C7 (amended): the text handed to the splicer is an empty line, the
    heading line, one empty line, and then the transformed help text; the
    heading is its second line. *)
Theorem heading_prefixed (stdout : text) :
  let transformed := patch_help_test (help_output_stripped stdout) in
  help_output_final stdout = [nl] ++ heading_line ++ [nl; nl] ++ transformed /\
  split_lines (help_output_final stdout) =
    [] :: heading_line :: [] :: split_lines transformed.
Proof.
  intros transformed.
  assert (E : help_output_final stdout =
              [] ++ nl :: heading_line ++ nl :: [] ++ nl :: transformed)
    by reflexivity.
  split; [exact E|].
  rewrite E, !split_lines_app_nl. reflexivity.
Qed.

(** C7 as stated fails: the first line of the text handed to the splicer is
    empty, the heading comes second, and a single empty line follows it. *)
Lemma heading_is_second_line :
  let final := help_output_final help_sample in
  hd [] (split_lines final) = [] /\
  hd [] (split_lines final) <> heading_line /\
  nth 1 (split_lines final) [] = heading_line /\
  nth 2 (split_lines final) [] = [] /\
  nth 3 (split_lines final) [] = py "usage::".
Proof.
  vm_compute. repeat split; try reflexivity. discriminate.
Qed.

(** ** The invoker *)

(** C9 (amended): when the command cannot be started, [main] ends with the
    exception and nothing is read, printed or written; the return code of a
    command that ran is never looked at, so a run behaves the same whatever
    the code. *)
Theorem return_code_ignored :
  (forall w, main NotStarted w = (Raised OSError, w)) /\
  (forall rc rc' stdout w,
     main (Completed rc stdout) w = main (Completed rc' stdout) w).
Proof. split; reflexivity. Qed.

(** C9 as stated fails: after a command that ended with return code 2 and
    printed nothing, the file is rewritten all the same, with the heading
    and an empty help text between the markers. *)
Lemma failed_command_overwrites :
  let w := World (Some readme_plain) [] in
  let w' := snd (main (Completed 2 (Some [])) w) in
  fst (main (Completed 2 (Some [])) w) = Returned /\
  readme_rst w' =
    Some (py "Usage" ++ [nl] ++
          py ".. BEGIN HELP TEXT" ++ [nl] ++
          [nl] ++ heading_line ++ [nl; nl] ++ [nl; nl] ++
          py ".. END HELP TEXT" ++ [nl] ++
          py "License" ++ [nl]) /\
  readme_rst w' <> readme_rst w.
Proof.
  vm_compute. repeat split; try reflexivity. discriminate.
Qed.

(** * Further properties of the script *)

(** ** More on [str.replace] *)

Section ReplaceApart.

Variables (o : char) (ot new : text).
Local Abbreviation old := (o :: ot).

(** A prefix inside which the pattern cannot begin is passed over. *)
Lemma replace_app_apart (p r : text) :
  apart p old = true ->
  Str.replace (p ++ r) old new = p ++ Str.replace r old new.
Proof.
  induction p as [|c p IH]; intros A; [reflexivity|].
  change ((c :: p) ++ r) with (c :: p ++ r).
  rewrite replace_miss.
  - rewrite IH by (eapply apart_tail; eassumption). reflexivity.
  - apply (apart_head (c :: p) old); [discriminate|assumption|].
    apply (startswith_app (c :: p) r).
Qed.

(** A character that is not in the pattern separates what is replaced
    before it from what is replaced after it. *)
Lemma replace_split_at (a b : text) c :
  ~ In c old ->
  Str.replace (a ++ c :: b) old new =
  Str.replace a old new ++ c :: Str.replace b old new.
Proof.
  intros Hc. induction a as [a IH] using text_length_ind.
  assert (M : forall t : text, Str.startswith old (t ++ c :: b) = true ->
                               length old <= length t).
  { intros t H.
    destruct (le_lt_dec (length old) (length t)) as [|L]; [assumption|exfalso].
    apply Hc.
    assert (Lc : length (t ++ [c]) <= length old)
      by (rewrite length_app; simpl length in *; lia).
    assert (H' : Str.startswith old ((t ++ [c]) ++ b) = true)
      by (rewrite <- app_assoc; exact H).
    pose proof (startswith_firstn old (t ++ [c]) b H' Lc) as F.
    rewrite <- (firstn_skipn (length (t ++ [c])) old), <- F.
    apply in_or_app. left. apply in_or_app. right. now left. }
  destruct a as [|x a].
  - simpl app. destruct (Str.startswith old (c :: b)) eqn:H.
    + apply (M []) in H. simpl in H. lia.
    + rewrite replace_miss by assumption. reflexivity.
  - destruct (Str.startswith old ((x :: a) ++ c :: b)) eqn:H.
    + pose proof (M _ H) as L.
      assert (Ha : Str.startswith old (x :: a) = true).
      { rewrite <- H. symmetry. apply startswith_short; assumption. }
      rewrite replace_hit by assumption.
      rewrite (replace_hit o ot new (x :: a)) by assumption.
      rewrite skipn_app.
      replace (length old - length (x :: a)) with 0 by lia.
      rewrite skipn_O, IH, <- app_assoc; [reflexivity|].
      rewrite length_skipn. simpl. lia.
    + assert (Ha : Str.startswith old (x :: a) = false).
      { destruct (Str.startswith old (x :: a)) eqn:Ha; [|reflexivity].
        apply startswith_app_l with (r := c :: b) in Ha. congruence. }
      change ((x :: a) ++ c :: b) with (x :: (a ++ c :: b)) in *.
      rewrite !replace_miss by assumption.
      rewrite IH by (simpl; lia). reflexivity.
Qed.

End ReplaceApart.

(** Two replacements whose patterns and replacements cannot overlap one
    another can be made in either order. *)
Section ReplaceTwo.

Variables (o1 : char) (t1 new1 : text) (o2 : char) (t2 new2 : text).
Local Abbreviation old1 := (o1 :: t1).
Local Abbreviation old2 := (o2 :: t2).

Hypothesis old1_old2 : apart old1 old2 = true.
Hypothesis old2_old1 : apart old2 old1 = true.
Hypothesis new1_old2 : apart new1 old2 = true.
Hypothesis new2_old1 : apart new2 old1 = true.
Hypothesis old2_new1 : apart old2 new1 = true.
Hypothesis old1_new2 : apart old1 new2 = true.

Lemma replace_commute (s : text) :
  Str.replace (Str.replace s old1 new1) old2 new2 =
  Str.replace (Str.replace s old2 new2) old1 new1.
Proof.
  induction s as [s IH] using text_length_ind.
  destruct s as [|c s]; [reflexivity|].
  destruct (Str.startswith old1 (c :: s)) eqn:H1.
  - rewrite (replace_hit o1 t1 new1 (c :: s) H1).
    rewrite replace_app_apart by assumption.
    rewrite (startswith_split _ _ H1) at 2.
    rewrite (replace_app_apart o2 t2 new2 old1) by assumption.
    rewrite (replace_hit o1 t1 new1 (old1 ++ _)) by apply startswith_app.
    rewrite skipn_app, skipn_all, Nat.sub_diag, skipn_O, app_nil_l.
    rewrite IH; [reflexivity|]. rewrite length_skipn. simpl. lia.
  - destruct (Str.startswith old2 (c :: s)) eqn:H2.
    + rewrite (replace_hit o2 t2 new2 (c :: s) H2).
      rewrite (replace_app_apart o1 t1 new1 new2) by assumption.
      rewrite (startswith_split _ _ H2) at 1.
      rewrite (replace_app_apart o1 t1 new1 old2) by assumption.
      rewrite (replace_hit o2 t2 new2 (old2 ++ _)) by apply startswith_app.
      rewrite skipn_app, skipn_all, Nat.sub_diag, skipn_O, app_nil_l.
      rewrite IH; [reflexivity|]. rewrite length_skipn. simpl. lia.
    + assert (K2 : Str.startswith old2 (Str.replace (c :: s) old1 new1)
                   = false)
        by (rewrite startswith_replace; assumption).
      assert (K1 : Str.startswith old1 (Str.replace (c :: s) old2 new2)
                   = false)
        by (rewrite startswith_replace; assumption).
      rewrite (replace_miss o1 t1 new1 c s H1) in *.
      rewrite (replace_miss o2 t2 new2 c s H2) in *.
      rewrite (replace_miss o2 t2 new2 _ _ K2).
      rewrite (replace_miss o1 t1 new1 _ _ K1).
      rewrite IH by (simpl; lia). reflexivity.
Qed.

End ReplaceTwo.

(** ** More on the transformer *)

Lemma patch_help_test_clean s :
  contains usage_old (patch_help_test s) = false /\
  contains choices_old (patch_help_test s) = false.
Proof.
  unfold patch_help_test. split.
  - rewrite choices_old_cons, contains_replace by (vm_compute; reflexivity).
    rewrite usage_old_cons. apply replace_exhaustive; vm_compute; reflexivity.
  - rewrite choices_old_cons. apply replace_exhaustive; vm_compute; reflexivity.
Qed.

Lemma patch_help_test_absent s :
  contains usage_old s = false -> contains choices_old s = false ->
  patch_help_test s = s.
Proof.
  intros Hu Hc. unfold patch_help_test. revert Hu Hc.
  rewrite usage_old_cons, choices_old_cons. intros Hu Hc.
  rewrite (replace_absent _ _ _ s Hu). apply replace_absent; assumption.
Qed.

(** X1: the transformer leaves neither [usage: nitf-rename] nor the braced
    choices in its result, and applying it to its own result changes
    nothing. *)
Theorem patch_help_test_idempotent (s : text) :
  contains usage_old (patch_help_test s) = false /\
  contains choices_old (patch_help_test s) = false /\
  patch_help_test (patch_help_test s) = patch_help_test s.
Proof.
  destruct (patch_help_test_clean s) as [Hu Hc].
  split; [assumption|]. split; [assumption|].
  apply patch_help_test_absent; assumption.
Qed.

(** X2: a text that holds neither [usage: nitf-rename] nor the braced
    choices comes out of the transformer as it went in. *)
Theorem patch_help_test_passthrough (s : text) :
  contains usage_old s = false -> contains choices_old s = false ->
  patch_help_test s = s.
Proof. apply patch_help_test_absent. Qed.

Lemma patch_help_test_passthrough_witness :
  patch_help_test (py "Rename files." ++ [nl] ++ py "usage: nitf") =
  py "Rename files." ++ [nl] ++ py "usage: nitf".
Proof.
  apply (patch_help_test_passthrough
           (py "Rename files." ++ [nl] ++ py "usage: nitf"));
    vm_compute; reflexivity.
Defined.

(** X3: the two replacements of the transformer do not interfere: made in
    the other order they give the same text. *)
Theorem patch_help_test_order (s : text) :
  patch_help_test s =
  Str.replace (Str.replace s choices_old choices_new) usage_old usage_new.
Proof.
  unfold patch_help_test. rewrite usage_old_cons, choices_old_cons.
  apply replace_commute; vm_compute; reflexivity.
Qed.

Lemma patch_help_test_nl (a b : text) :
  patch_help_test (a ++ nl :: b) =
  patch_help_test a ++ nl :: patch_help_test b.
Proof.
  unfold patch_help_test. rewrite usage_old_cons, choices_old_cons.
  rewrite !replace_split_at by (vm_compute; intuition discriminate).
  reflexivity.
Qed.

(** X4: the transformer never matches across a line terminator: a text made
    of lines is transformed line by line. *)
Theorem patch_help_test_lines (ls : list text) :
  patch_help_test (join_lines ls) = join_lines (map patch_help_test ls).
Proof.
  induction ls as [|l ls IH]; [reflexivity|].
  destruct ls as [|l' ls]; [reflexivity|].
  rewrite join_lines_cons, patch_help_test_nl, IH by discriminate.
  reflexivity.
Qed.

(** ** More on the capture *)

Lemma split_strip_lines s :
  split_lines (strip_lines s) = map rstrip_blank (split_lines s).
Proof.
  unfold strip_lines. apply split_join_lines.
  - destruct (split_lines_cons s) as (l & ls & ->). discriminate.
  - apply Forall_map. eapply Forall_impl; [|apply split_lines_no_nl].
    intros l Hl K. apply Hl. eapply rstrip_blank_incl; eassumption.
Qed.

Lemma rstrip_blank_fixed l :
  ends_with Re.is_blank l = false -> rstrip_blank l = l.
Proof.
  induction l as [|c l IH]; [reflexivity|]. destruct l as [|d l].
  - simpl. intros ->. reflexivity.
  - intros H. change (rstrip_blank (c :: d :: l)) with
      (match rstrip_blank (d :: l) with
       | [] => if Re.is_blank c then [] else [c]
       | t => c :: t
       end).
    rewrite (IH H). reflexivity.
Qed.

Lemma rstrip_fixed s :
  ends_with Str.isspace s = false -> Str.rstrip s = s.
Proof.
  induction s as [|c s IH]; [reflexivity|]. destruct s as [|d s].
  - simpl. intros ->. reflexivity.
  - intros H. change (Str.rstrip (c :: d :: s)) with
      (match Str.rstrip (d :: s) with
       | [] => if Str.isspace c then [] else [c]
       | t => c :: t
       end).
    rewrite (IH H). reflexivity.
Qed.

Lemma rstrip_app_space s ws :
  forallb Str.isspace ws = true -> Str.rstrip (s ++ ws) = Str.rstrip s.
Proof.
  intros W. assert (E : Str.rstrip ws = []).
  { induction ws as [|c ws IH]; [reflexivity|].
    simpl in W. apply andb_true_iff in W as [Hc W].
    simpl. rewrite (IH W), Hc. reflexivity. }
  induction s as [|c s IH]; [exact E|].
  simpl. rewrite IH. reflexivity.
Qed.

Lemma strip_lines_idempotent s : strip_lines (strip_lines s) = strip_lines s.
Proof.
  unfold strip_lines at 1. rewrite split_strip_lines, map_map.
  unfold strip_lines. f_equal. apply map_ext.
  intros l. apply rstrip_blank_fixed, rstrip_blank_ends.
Qed.

(** X5: on any text, terminated or not, the substitution keeps the lines
    and takes the trailing spaces and tabs off each of them; a second
    substitution finds nothing left to do. *)
Theorem sub_line_by_line (s : text) :
  split_lines (Re.sub s) = map rstrip_blank (split_lines s) /\
  Re.sub (Re.sub s) = Re.sub s.
Proof.
  rewrite !sub_strip_lines. split.
  - apply split_strip_lines.
  - apply strip_lines_idempotent.
Qed.

(** X6: the text handed to the transformer is already in the form the
    capture gives: captured again, it is unchanged. *)
Theorem help_output_stripped_idempotent (stdout : text) :
  help_output_stripped (help_output_stripped stdout) =
  help_output_stripped stdout.
Proof.
  assert (E : forall t, help_output_stripped t =
                        strip_lines (Str.rstrip t) ++ [nl; nl]).
  { intros t. unfold help_output_stripped, help_output_captured.
    rewrite sub_strip_lines, strip_lines_app_nl. reflexivity. }
  rewrite (E (help_output_stripped stdout)), (E stdout).
  rewrite rstrip_app_space by reflexivity.
  rewrite rstrip_fixed by apply strip_lines_ends, rstrip_ends.
  rewrite strip_lines_idempotent. reflexivity.
Qed.

(** X7: the whole text built by [main] from an output of the command: an
    empty line, the heading, an empty line, the transformed lines of the
    output without their trailing blanks, and an empty line; whatever the
    output, it ends with two line terminators. *)
Theorem help_output_final_closed_form (stdout : text) :
  help_output_final stdout =
  [nl] ++ heading_line ++ [nl; nl] ++
  patch_help_test (strip_lines (Str.rstrip stdout)) ++ [nl; nl].
Proof.
  unfold help_output_final, help_output_stripped, help_output_captured.
  rewrite sub_strip_lines, strip_lines_app_nl.
  change (strip_lines [nl]) with ([] ++ nl :: []).
  rewrite !patch_help_test_nl. reflexivity.
Qed.

(** ** More on the splicer *)

Lemma index_of_None_inv sub s :
  Str.index_of sub s = None ->
  forall j, j <= length s -> Str.startswith sub (skipn j s) = false.
Proof.
  induction s as [|c s IH]; rewrite index_of_unfold;
    destruct (Str.startswith sub _) eqn:H; try discriminate.
  - intros _ j Hj. simpl in Hj. replace j with 0 by lia. exact H.
  - destruct (Str.index_of sub s); [discriminate|]. intros _ [|j] Hj.
    + exact H.
    + apply (IH eq_refl). simpl in Hj. lia.
Qed.

(** An answer of [find] other than [-1] is the offset of the first
    occurrence at or after a [start] within the text. *)
Lemma find_found s sub start r :
  start <= length s ->
  Str.find s sub (Z.of_nat start) = r -> r <> (-1)%Z ->
  exists i, r = Z.of_nat i /\ first_occurrence_from sub s start i.
Proof.
  intros L F N.
  assert (R : (0 <= r)%Z).
  { revert F N. unfold Str.find, len.
    destruct (Z.ltb_spec (Z.of_nat start) 0) as [?|_]; [lia|].
    destruct (Z.ltb_spec (Z.of_nat (length s)) (Z.of_nat start)); [lia|].
    destruct (Str.index_of sub _); lia. }
  exists (Z.to_nat r). rewrite Z2Nat.id by assumption. split; [reflexivity|].
  apply find_sound; [assumption|]. rewrite Z2Nat.id by assumption. exact F.
Qed.

(** [find] does not miss an occurrence at or after [start]. *)
Lemma find_complete s sub start j :
  start <= j -> occurs_at sub s j ->
  exists i, first_occurrence_from sub s start i /\ i <= j.
Proof.
  intros Lj Ho. pose proof Ho as Ho'.
  apply occurs_at_iff in Ho' as [Hj Hs].
  destruct (Z.eq_dec (Str.find s sub (Z.of_nat start)) (-1)) as [E|N].
  - exfalso. revert E. unfold Str.find, len.
    destruct (Z.ltb_spec (Z.of_nat start) 0) as [?|_]; [lia|].
    destruct (Z.ltb_spec (Z.of_nat (length s)) (Z.of_nat start)); [lia|].
    rewrite Nat2Z.id.
    destruct (Str.index_of sub (skipn start s)) eqn:I; [lia|]. intros _.
    pose proof (index_of_None_inv _ _ I (j - start)) as K.
    rewrite length_skipn, skipn_skipn in K.
    replace (j - start + start) with j in K by lia.
    rewrite K in Hs by lia. discriminate.
  - destruct (find_found s sub start _ ltac:(lia) eq_refl N) as (i & _ & Hi).
    exists i. split; [assumption|].
    destruct (le_lt_dec i j) as [|Lt]; [assumption|exfalso].
    destruct Hi as (_ & _ & Hn). apply (Hn j); [lia|assumption].
Qed.

(** What a successful splice tells about the file. *)
Lemma splice_update_inv data help_output data_update :
  splice data help_output = Update data_update ->
  exists b e,
    first_occurrence help_begin_text data b /\
    first_occurrence_from help_end_text data b e /\
    data_update = firstn (b + 19) data ++ help_output ++ skipn e data.
Proof.
  intros S. pose proof S as S'. unfold splice in S'.
  destruct (Z.eqb_spec (help_begin_index data) (-1)) as [|Nb]; [discriminate|].
  destruct (Z.eqb_spec (help_end_index data) (-1)) as [|Ne]; [discriminate|].
  clear S'.
  destruct (find_found data help_begin_text 0 _ ltac:(lia) eq_refl Nb)
    as (b & Eb & Hb).
  assert (Lb : b <= length data) by (destruct Hb as (_ & [? _] & _); lia).
  unfold help_end_index in Ne.
  change (Str.find data help_begin_text (Z.of_nat 0))
    with (help_begin_index data) in Eb.
  rewrite Eb in Ne.
  destruct (find_found data help_end_text b _ Lb eq_refl Ne) as (e & Ee & He).
  exists b, e. split; [exact Hb|]. split; [exact He|].
  rewrite (splice_found data b e Hb He) in S. now injection S as <-.
Qed.

Section SplicedAgain.

Variables (data help_output : text) (b e : nat).
Hypothesis begin_found : first_occurrence help_begin_text data b.
Hypothesis end_found : first_occurrence_from help_end_text data b e.

Local Abbreviation data_update :=
  (firstn (b + 19) data ++ help_output ++ skipn e data).

(** The result of a splice still holds an end marker at or after its begin
    marker. *)
Lemma end_marker_present :
  exists e', first_occurrence_from help_end_text data_update b e'.
Proof.
  destruct (end_after_begin data b e begin_found end_found) as [L1 L2].
  destruct (find_complete data_update help_end_text b
              (b + 19 + length help_output)) as (e' & He' & _);
    [lia| |eauto].
  apply occurs_at_iff.
  rewrite <- (kept_end_offset data help_output b e begin_found end_found).
  rewrite (update_suffix data help_output b e begin_found end_found).
  split.
  - rewrite !length_app, length_firstn, length_skipn. lia.
  - destruct end_found as (_ & He & _). now apply occurs_at_iff in He.
Qed.

(** When the end marker found in the result is the one of the original,
    splicing another text into the result is splicing it into the
    original. *)
Lemma splice_over other :
  first_occurrence_from help_end_text data_update b
    (length data_update - (length data - e)) ->
  splice data_update other = splice data other.
Proof.
  intros He'.
  rewrite (splice_found data_update b _
             (begin_marker_kept data help_output b e begin_found end_found)
             He').
  rewrite (update_prefix data help_output b e begin_found end_found).
  rewrite (update_suffix data help_output b e begin_found end_found).
  symmetry. apply splice_found; assumption.
Qed.

End SplicedAgain.

(** X8: a splice never loses the markers: the text it writes has the begin
    marker where it was and an end marker after it, so any later splice
    into it succeeds as well. *)
Theorem markers_survive (data help_output data_update : text) :
  splice data help_output = Update data_update ->
  (exists b e',
     first_occurrence help_begin_text data b /\
     first_occurrence help_begin_text data_update b /\
     first_occurrence_from help_end_text data_update b e') /\
  forall other, exists data_update',
    splice data_update other = Update data_update'.
Proof.
  intros S. apply splice_update_inv in S as (b & e & Hb & He & ->).
  pose proof (begin_marker_kept data help_output b e Hb He) as Hb'.
  destruct (end_marker_present data help_output b e Hb He) as (e' & He').
  split; [exists b, e'; auto|].
  intros other. eexists. apply (splice_found _ b e' Hb' He').
Qed.

Lemma markers_survive_witness :
  exists data_update',
    splice (firstn 25 readme_plain ++ py "new" ++ skipn 36 readme_plain)
      help_sample = Update data_update'.
Proof.
  apply (markers_survive readme_plain (py "new")).
  vm_compute. reflexivity.
Defined.

(** X9: the three ways a run of [main] ends.  It raises, and nothing was
    printed or written; or it prints one line that names the begin or the
    end marker, and the file is as it was; or it prints nothing and writes
    the file, which happens only when the file had both markers, the end
    marker at or after the first begin marker. *)
Theorem main_outcomes (p : process) (w : world) :
  (exists e, main p w = (Raised e, w)) \/
  (exists marker,
     (marker = help_begin_text \/ marker = help_end_text) /\
     main p w =
     (Returned,
      World (readme_rst w)
        (printed w ++ [py "Error: '" ++ marker ++ py "' not found"]))) \/
  (exists rc stdout data b e,
     p = Completed rc (Some stdout) /\
     readme_rst w = Some data /\
     first_occurrence help_begin_text data b /\
     first_occurrence_from help_end_text data b e /\
     main p w =
     (Returned,
      World
        (Some (firstn (b + 19) data ++ help_output_final stdout ++
               skipn e data))
        (printed w))).
Proof.
  destruct p as [|rc [stdout|]]; [left; eexists; reflexivity| |
                                  left; eexists; reflexivity].
  destruct w as [[data|] log]; [|left; eexists; reflexivity].
  unfold main, readme_rst.
  destruct (splice data (help_output_final stdout)) as [marker|d] eqn:S.
  - right; left. exists marker. unfold splice in S.
    destruct (help_begin_index data =? -1)%Z;
      [|destruct (help_end_index data =? -1)%Z; [|discriminate]];
      injection S as <-; (split; [auto|reflexivity]).
  - right; right.
    apply splice_update_inv in S as (b & e & Hb & He & ->).
    exists rc, stdout, data, b, e.
    split; [reflexivity|]. split; [reflexivity|].
    split; [exact Hb|]. split; [exact He|reflexivity].
Qed.

(** X10: when the end marker follows the begin marker with nothing in
    between, the character kept after the begin marker is the first
    character of the end marker, and the end marker is written in full
    after the help text: the file grows by that one character besides the
    help text. *)
Theorem splice_adjacent_markers (data help_output : text) (b : nat) :
  first_occurrence help_begin_text data b ->
  first_occurrence_from help_end_text data b (b + 18) ->
  splice data help_output =
    Update (firstn b data ++ help_begin_text ++ py "." ++ help_output ++
            help_end_text ++ skipn (b + 34) data) /\
  data = firstn b data ++ help_begin_text ++ help_end_text ++
         skipn (b + 34) data.
Proof.
  intros Hb He.
  assert (E : skipn (b + 18) data = help_end_text ++ skipn (b + 34) data).
  { destruct He as (_ & He & _). apply occurs_at_iff in He as [_ He].
    rewrite (startswith_split _ _ He) at 1. rewrite skipn_skipn.
    do 2 f_equal. change (length help_end_text) with 16. lia. }
  split.
  - rewrite (splice_found data b _ Hb He).
    rewrite (prefix_through_marker data b Hb), E, <- !app_assoc.
    reflexivity.
  - rewrite <- (firstn_skipn b data) at 1.
    rewrite (skipn_begin data b Hb), E. reflexivity.
Qed.

Lemma splice_adjacent_markers_witness :
  splice (py ".. BEGIN HELP TEXT.. END HELP TEXT") [nl] =
  Update (py ".. BEGIN HELP TEXT." ++ [nl] ++ py ".. END HELP TEXT").
Proof.
  apply (splice_adjacent_markers (py ".. BEGIN HELP TEXT.. END HELP TEXT")
           [nl] 0).
  - apply (find_sound _ help_begin_text 0 0);
      [simpl; lia|vm_compute; reflexivity].
  - apply (find_sound _ help_end_text 0 18);
      [simpl; lia|vm_compute; reflexivity].
Defined.

(** X11: splicing in the text that already stands between the insertion
    point and the end marker writes the file back as it was. *)
Theorem splice_unchanged (data : text) (b e : nat) :
  first_occurrence help_begin_text data b ->
  first_occurrence_from help_end_text data b e ->
  b + 19 <= e ->
  splice data (firstn (e - (b + 19)) (skipn (b + 19) data)) = Update data.
Proof.
  intros Hb He L. rewrite (splice_found data b e Hb He). f_equal.
  rewrite <- (firstn_skipn (b + 19) data) at 4. f_equal.
  rewrite <- (firstn_skipn (e - (b + 19)) (skipn (b + 19) data)) at 2.
  f_equal. rewrite skipn_skipn. f_equal. lia.
Qed.

Lemma splice_unchanged_witness :
  splice readme_plain (py "stale help" ++ [nl]) = Update readme_plain.
Proof.
  apply (splice_unchanged readme_plain 6 36).
  - apply (find_sound readme_plain help_begin_text 0 6);
      [simpl; lia|vm_compute; reflexivity].
  - apply (find_sound readme_plain help_end_text 6 36);
      [simpl; lia|vm_compute; reflexivity].
  - lia.
Defined.

(** X12: the last splice wins: when the end marker found in the result of
    a splice is the one of the original file, splicing another text into
    that result gives what splicing it into the original gives. *)
Theorem splice_last_wins (data help_output data_update other : text)
    (b e : nat) :
  first_occurrence help_begin_text data b ->
  first_occurrence_from help_end_text data b e ->
  splice data help_output = Update data_update ->
  first_occurrence_from help_end_text data_update b
    (length data_update - (length data - e)) ->
  splice data_update other = splice data other.
Proof.
  intros Hb He S He'.
  rewrite (splice_found data b e Hb He) in S. injection S as <-.
  apply splice_over; assumption.
Qed.

Lemma splice_last_wins_witness :
  let data_update :=
    firstn 25 readme_plain ++ help_output_final help_sample ++
    skipn 36 readme_plain in
  splice data_update (py "stale help" ++ [nl]) =
  splice readme_plain (py "stale help" ++ [nl]).
Proof.
  intros data_update.
  apply (splice_last_wins readme_plain (help_output_final help_sample)
           data_update (py "stale help" ++ [nl]) 6 36).
  - apply (find_sound readme_plain help_begin_text 0 6);
      [simpl; lia|vm_compute; reflexivity].
  - apply (find_sound readme_plain help_end_text 6 36);
      [simpl; lia|vm_compute; reflexivity].
  - vm_compute. reflexivity.
  - apply (find_sound data_update help_end_text 6);
      [vm_compute; lia|vm_compute; reflexivity].
Defined.

(** X13: in a successful splice the end marker found lies wholly after the
    begin marker and within the file, and the text written is as long as
    the part kept up to the insertion point, the help text and the part
    from the end marker on. *)
Theorem splice_indices (data help_output data_update : text) :
  splice data help_output = Update data_update ->
  (0 <= help_begin_index data /\
   help_begin_index data + len help_begin_text <= help_end_index data /\
   help_end_index data + len help_end_text <= len data /\
   len data_update =
     insertion_index data + len help_output +
     (len data - help_end_index data))%Z.
Proof.
  intros S. apply splice_update_inv in S as (b & e & Hb & He & ->).
  destruct (end_after_begin data b e Hb He) as [L1 L2].
  rewrite (insertion_index_found data b Hb).
  rewrite (help_end_index_found data b e Hb He).
  rewrite (help_begin_index_found data b Hb).
  change (len help_begin_text) with 18%Z.
  change (len help_end_text) with 16%Z.
  unfold len. rewrite !length_app, length_firstn, length_skipn. lia.
Qed.

Lemma splice_indices_witness :
  (help_begin_index readme_plain + len help_begin_text
   <= help_end_index readme_plain)%Z.
Proof.
  apply (splice_indices readme_plain [nl]
           (firstn 25 readme_plain ++ [nl] ++ skipn 36 readme_plain)).
  vm_compute. reflexivity.
Defined.

Lemma main_twice_witness :
  exists data_update,
    let p := Completed 0 (Some help_sample) in
    let w1 := World (Some data_update) [] in
    main p (World (Some readme_plain) []) = (Returned, w1) /\
    main p w1 = (Returned, w1).
Proof.
  apply (main_twice 0 help_sample readme_plain 6 36 []).
  - apply (find_sound readme_plain help_begin_text 0 6);
      [simpl; lia|vm_compute; reflexivity].
  - apply (find_sound readme_plain help_end_text 6 36);
      [simpl; lia|vm_compute; reflexivity].
  - vm_compute. reflexivity.
Defined.
